(** * parkrun-theme-map: data ingestion, coordinate parsing and marker layers

    A shallow embedding of the two versions of [InteractiveMap.tsx]
    (the static WKT list and the CSV loader) and of [pages/Index.tsx].

    Modelling conventions.
    - A JavaScript number is [NaN], an infinity, or a finite value kept as
      an exact rational in lowest terms.  Rounding to binary64 and the sign
      of zero are not modelled; being NaN or not is unaffected by rounding.
    - A JavaScript string is a [string] whose characters stand for the code
      units below 256.
    - A CSV row (an object with string values, as Papa Parse builds it with
      [header: true]) is a [gmap string string].
    - Field values of a feed entry are scalar JSON values (or absent). *)

From Stdlib Require Import ZArith QArith Qpower Ascii String List Lia.
From stdpp Require Import base option gmap strings list.

Local Open Scope Z_scope.
Local Open Scope string_scope.

(* String concatenation unfolds under [simpl] when its first argument is
   known. *)
Local Arguments String.append !_ _ / : simpl nomatch.

(** ** Numbers *)

Inductive number : Type :=
  | NaN
  | Infinity (negative : bool)
  | Fin (q : Q).

Definition isNaN (n : number) : bool :=
  match n with NaN => true | _ => false end.

(** [10^e] as a rational, for any integer exponent. *)
Definition pow10 (e : Z) : Q :=
  if (0 <=? e)%Z then inject_Z (10 ^ e) else Qmake 1 (Z.to_pos (10 ^ (- e))).

(** The rational [m * 10^e] in lowest terms. *)
Definition scale (m e : Z) : Q := Qred (Qmult (inject_Z m) (pow10 e)).

(** The value of a decimal literal of the source, such as [51.4108]
    written [decimal_number 514108 (-4)]. *)
Definition decimal_number (m e : Z) : number := Fin (scale m e).

Definition number_leb (a b : number) : bool :=
  match a, b with
  | NaN, _ | _, NaN => false
  | Infinity true, _ => true
  | _, Infinity false => true
  | Infinity false, _ => false
  | _, Infinity true => false
  | Fin x, Fin y => Qle_bool x y
  end.

(** ** Character classes and string helpers *)

Definition is_char (c d : ascii) : bool := Ascii.eqb c d.

(** WhiteSpace and LineTerminator code units below 256: TAB, LF, VT, FF,
    CR, SP and NBSP. *)
Definition is_white_space (c : ascii) : bool :=
  let n := nat_of_ascii c in
  ((9 <=? n) && (n <=? 13))%nat || (n =? 32)%nat || (n =? 160)%nat.

Definition digit_value (c : ascii) : option Z :=
  let n := nat_of_ascii c in
  if ((48 <=? n) && (n <=? 57))%nat then Some (Z.of_nat (n - 48)) else None.

(** [starts_with p s] is the rest of [s] after the prefix [p], if [s]
    begins with [p]. *)
Fixpoint starts_with (p s : string) : option string :=
  match p, s with
  | EmptyString, _ => Some s
  | String a p', String b s' => if is_char a b then starts_with p' s' else None
  | String _ _, EmptyString => None
  end.

(** The longest prefix of [s] whose characters satisfy [keep], and the
    rest. *)
Fixpoint span_class (keep : ascii -> bool) (s : string) : string * string :=
  match s with
  | EmptyString => (EmptyString, EmptyString)
  | String c s' =>
      if keep c then
        let (g, r) := span_class keep s' in (String c g, r)
      else (EmptyString, s)
  end.

Fixpoint trim_start (s : string) : string :=
  match s with
  | String c s' => if is_white_space c then trim_start s' else s
  | EmptyString => EmptyString
  end.

(** The leading decimal digits of [s], most significant first, and the
    rest. *)
Fixpoint take_digits (s : string) : list Z * string :=
  match s with
  | EmptyString => ([], EmptyString)
  | String c s' =>
      match digit_value c with
      | Some d => let (ds, r) := take_digits s' in (d :: ds, r)
      | None => ([], s)
      end
  end.

Definition digits_value (ds : list Z) : Z :=
  fold_left (fun acc d => 10 * acc + d) ds 0.

(** An optional sign: [true] when the sign is a minus. *)
Definition take_sign (s : string) : bool * string :=
  match s with
  | String c s' =>
      if is_char c "-" then (true, s')
      else if is_char c "+" then (false, s')
      else (false, s)
  | EmptyString => (false, s)
  end.

(** ExponentPart: [e] or [E], an optional sign and at least one digit.
    Without a digit the exponent is not part of the literal. *)
Definition take_exponent (s : string) : Z :=
  match s with
  | String c s' =>
      if is_char c "e" || is_char c "E" then
        let (neg, r) := take_sign s' in
        let (ds, _) := take_digits r in
        match ds with
        | [] => 0
        | _ => if neg then - digits_value ds else digits_value ds
        end
      else 0
  | EmptyString => 0
  end.

(** ** parseFloat *)

(** The digits, the optional fraction and the optional exponent of a
    StrUnsignedDecimalLiteral at the start of [s]; NaN when [s] starts
    with no digit, before or after a point. *)
Definition read_decimal (neg : bool) (s : string) : number :=
  let (ip, s1) := take_digits s in
  let (fp, s2) :=
    match s1 with
    | String c r => if is_char c "." then take_digits r else ([], s1)
    | EmptyString => ([], s1)
    end in
  match (ip ++ fp)%list with
  | [] => NaN
  | ds =>
      let m := digits_value ds in
      Fin (scale (if neg then - m else m)
                 (take_exponent s2 - Z.of_nat (length fp)))
  end.

(** The global [parseFloat] on a string: leading white space is dropped,
    then the longest prefix that is a StrDecimalLiteral is read; when
    there is none the result is NaN. *)
Definition parseFloat (input : string) : number :=
  let (neg, s) := take_sign (trim_start input) in
  match starts_with "Infinity" s with
  | Some _ => Infinity neg
  | None => read_decimal neg s
  end.

(** ** JavaScript values met in the feed and in the rows *)

Inductive value : Type :=
  | VUndefined
  | VNull
  | VBool (b : bool)
  | VNum (n : number)
  | VStr (s : string).

(** ToBoolean. *)
Definition truthy (v : value) : bool :=
  match v with
  | VUndefined | VNull => false
  | VBool b => b
  | VNum NaN => false
  | VNum (Infinity _) => true
  | VNum (Fin q) => negb (Qeq_bool q 0)
  | VStr s => negb (String.eqb s "")
  end.

(** [a || b]. *)
Definition js_or (a b : value) : value := if truthy a then a else b.

(** [parseFloat(v)]: the argument is converted with ToString first.  For
    a number the text that Number::toString gives reads back as the same
    number. *)
Definition parseFloatOf (v : value) : number :=
  match v with
  | VStr s => parseFloat s
  | VNum n => n
  | VUndefined => parseFloat "undefined"
  | VNull => parseFloat "null"
  | VBool true => parseFloat "true"
  | VBool false => parseFloat "false"
  end.

(** ** The normalized records *)

Module ParkrunEvent.
Record t : Type := mk {
  id : value;
  name : value;
  latitude : number;
  longitude : number;
  country : value;
  region : value;
  status : value
}.
End ParkrunEvent.

Module ThemePark.
Record t : Type := mk {
  name : value;
  latitude : number;
  longitude : number;
  country : value;
  state : value   (* [VUndefined] when the property is absent *)
}.
End ThemePark.

(** ** Theme parks from the static WKT list (first version of the map) *)

Module StaticList.

Record Item : Type := {
  wkt : string;
  name : string;
  description : string
}.

Record Coords : Type := {
  longitude : number;
  latitude : number
}.

(** The pattern [/POINT \(([^\)]+)\)/] tried at the start of [s]: the
    literal text, then the greedy class, which stops only at a closing
    parenthesis or at the end, then the closing parenthesis.  A shorter
    run of the class is always followed by a character of the class, so
    backtracking cannot succeed where the longest run fails. *)
Definition match_here (s : string) : option string :=
  match starts_with "POINT (" s with
  | Some r =>
      let (g, r') := span_class (fun c => negb (is_char c ")")) r in
      match g, r' with
      | String _ _, String c _ => if is_char c ")" then Some g else None
      | _, _ => None
      end
  | None => None
  end.

(** [s.match(/POINT \(([^\)]+)\)/)]: the first capture group of the
    leftmost match, or [None] for [null]. *)
Fixpoint regexp_match (s : string) : option string :=
  match match_here s with
  | Some g => Some g
  | None =>
      match s with
      | EmptyString => None
      | String _ s' => regexp_match s'
      end
  end.

(** [s.split(' ')]. *)
Fixpoint split_space (s : string) : list string :=
  match s with
  | EmptyString => [EmptyString]
  | String c s' =>
      if is_char c " " then EmptyString :: split_space s'
      else
        match split_space s' with
        | h :: t => String c h :: t
        | [] => [String c EmptyString]
        end
  end.

(** [coords[i]]: [undefined] past the end. *)
Definition index (coords : list string) (i : nat) : value :=
  from_option VStr VUndefined (coords !! i).

Definition parseWKT (wkt : string) : option Coords :=
  match regexp_match wkt with
  | Some group =>
      let coords := split_space group in
      Some {| longitude := parseFloatOf (index coords 0);
              latitude := parseFloatOf (index coords 1) |}
  | None => None
  end.

Definition toPark (item : Item) : option ThemePark.t :=
  match parseWKT (wkt item) with
  | None => None
  | Some coords =>
      Some {| ThemePark.name := VStr (name item);
              ThemePark.latitude := latitude coords;
              ThemePark.longitude := longitude coords;
              ThemePark.country := VStr "International";
              ThemePark.state := VUndefined |}
  end.

(** [themeParkData.map(...).filter(park => park !== null)]. *)
Definition parks (themeParkData : list Item) : list ThemePark.t :=
  omap id (map toPark themeParkData).

End StaticList.

(** ** Theme parks from the CSV rows (second version of the map) *)

Module Csv.

(** [row.k]: [undefined] for a column the row does not have. *)
Definition prop (row : gmap string string) (k : string) : value :=
  from_option VStr VUndefined (row !! k).

Definition toPark (row : gmap string string) : ThemePark.t :=
  {| ThemePark.name :=
       js_or (js_or (prop row "name") (prop row "Name")) (VStr "");
     ThemePark.latitude :=
       parseFloatOf
         (js_or (js_or (prop row "latitude") (prop row "Latitude"))
                (prop row "lat"));
     ThemePark.longitude :=
       parseFloatOf
         (js_or (js_or (js_or (prop row "longitude") (prop row "Longitude"))
                       (prop row "lng"))
                (prop row "lon"));
     ThemePark.country :=
       js_or (js_or (prop row "country") (prop row "Country")) (VStr "");
     ThemePark.state :=
       js_or (js_or (prop row "state") (prop row "State")) (VStr "") |}.

(** [park.name && !isNaN(park.latitude) && !isNaN(park.longitude)]. *)
Definition keep (park : ThemePark.t) : bool :=
  truthy (ThemePark.name park)
  && negb (isNaN (ThemePark.latitude park))
  && negb (isNaN (ThemePark.longitude park)).

(** The [complete] callback: [results.data.map(...).filter(...)]. *)
Definition parks (data : list (gmap string string)) : list ThemePark.t :=
  List.filter keep (map toPark data).

(** The column names the parser reads. *)
Definition aliases : list string :=
  ["name"; "Name"; "latitude"; "Latitude"; "lat";
   "longitude"; "Longitude"; "lng"; "lon";
   "country"; "Country"; "state"; "State"].

End Csv.

(** ** Running events from the remote feed (both versions) *)

Module Feed.

(** An element of [data.events]: [null], an object, or anything else (a
    primitive or an array, whose [id], [name], ... are all undefined). *)
Inductive entry : Type :=
  | EntryNull
  | EntryObject (fields : gmap string value)
  | EntryOther.

(** [data.events]: undefined or null; an array; or a value without a
    [map] method (a string, a number, a boolean or an object). *)
Inductive eventsField : Type :=
  | EventsAbsent
  | EventsArray (entries : list entry)
  | EventsNotArray.

(** The decoded body [data]: [null], or a value with its [events]. *)
Inductive feedData : Type :=
  | DataNull
  | DataValue (events : eventsField).

(** How the request ends: [fetch] rejects, or a response arrives with its
    [ok] flag and the outcome of [response.json()] ([None] when decoding
    fails). *)
Inductive fetchResult : Type :=
  | FetchRejected
  | FetchResponse (ok : bool) (body : option feedData).

(** The object literal of the [map] callback, over the property reader
    of the entry. *)
Definition toEvent (get : string -> value) : ParkrunEvent.t :=
  {| ParkrunEvent.id := get "id";
     ParkrunEvent.name := get "name";
     ParkrunEvent.latitude := parseFloatOf (get "latitude");
     ParkrunEvent.longitude := parseFloatOf (get "longitude");
     ParkrunEvent.country := js_or (get "country") (VStr "UK");
     ParkrunEvent.region := js_or (get "region") (VStr "");
     ParkrunEvent.status := js_or (get "status") (VStr "active") |}.

Definition prop (fields : gmap string value) (k : string) : value :=
  default VUndefined (fields !! k).

(** The [map] callback; [None] is the TypeError of reading a property of
    [null]. *)
Definition transform (e : entry) : option ParkrunEvent.t :=
  match e with
  | EntryNull => None
  | EntryObject fields => Some (toEvent (prop fields))
  | EntryOther => Some (toEvent (fun _ => VUndefined))
  end.

(** [!isNaN(event.latitude) && !isNaN(event.longitude)]. *)
Definition keep (event : ParkrunEvent.t) : bool :=
  negb (isNaN (ParkrunEvent.latitude event))
  && negb (isNaN (ParkrunEvent.longitude event)).

(** [data.events?.map(...).filter(...) || []]; [None] when a TypeError
    is thrown. *)
Definition normalize (data : feedData) : option (list ParkrunEvent.t) :=
  match data with
  | DataNull => None
  | DataValue EventsAbsent => Some []
  | DataValue EventsNotArray => None
  | DataValue (EventsArray entries) =>
      List.filter keep <$> mapM transform entries
  end.

(** The [try] block up to [events]; [None] when anything in it throws. *)
Definition tryEvents (r : fetchResult) : option (list ParkrunEvent.t) :=
  match r with
  | FetchRejected => None
  | FetchResponse false _ => None
  | FetchResponse true None => None
  | FetchResponse true (Some data) => normalize data
  end.

Definition sample (i : Z) (n : string) (lat lon : number) (r : string)
  : ParkrunEvent.t :=
  {| ParkrunEvent.id := VNum (decimal_number i 0);
     ParkrunEvent.name := VStr n;
     ParkrunEvent.latitude := lat;
     ParkrunEvent.longitude := lon;
     ParkrunEvent.country := VStr "UK";
     ParkrunEvent.region := VStr r;
     ParkrunEvent.status := VStr "active" |}.

Definition sampleParkruns : list ParkrunEvent.t :=
  [ sample 1 "Bushy Park parkrun"
      (decimal_number 514108 (-4)) (decimal_number (-3370) (-4)) "London";
    sample 2 "Wimbledon Common parkrun"
      (decimal_number 514297 (-4)) (decimal_number (-2356) (-4)) "London";
    sample 3 "Hampstead Heath parkrun"
      (decimal_number 515584 (-4)) (decimal_number (-1656) (-4)) "London";
    sample 4 "Birmingham parkrun"
      (decimal_number 524862 (-4)) (decimal_number (-18904) (-4)) "Midlands";
    sample 5 "Manchester parkrun"
      (decimal_number 534808 (-4)) (decimal_number (-22426) (-4)) "North" ].

End Feed.

(** ** The page: visibility flags, datasets and marker layers *)

Module App.

Inductive Icon : Type := parkrunIcon | themeParkIcon.

(** The values a popup interpolates into its HTML.  The theme-park popup
    shows the state only when it is truthy. *)
Inductive Popup : Type :=
  | ParkrunPopup (name region country status : value)
  | ThemeParkPopup (name : value) (state : option value) (country : value).

Record Marker : Type := {
  latlng : number * number;
  icon : Icon;
  popup : Popup
}.

Record Toast : Type := {
  title : string;
  description : string;
  destructive : bool
}.

(** The state of [Index] (flags and counts) and of [InteractiveMap]
    (datasets, the map reference, the two layer groups), with the toasts
    shown so far. *)
Record State : Type := {
  showParkruns : bool;
  showThemeParks : bool;
  parkrunCount : nat;
  themeParkCount : nat;
  parkruns : list ParkrunEvent.t;
  themeParks : list ThemePark.t;
  mapReady : bool;
  parkrunLayer : list Marker;
  themeParkLayer : list Marker;
  toasts : list Toast
}.

Definition initialState : State :=
  {| showParkruns := true; showThemeParks := true;
     parkrunCount := 0; themeParkCount := 0;
     parkruns := []; themeParks := [];
     mapReady := false;
     parkrunLayer := []; themeParkLayer := [];
     toasts := [] |}.

Definition set_showParkruns (b : bool) (st : State) : State :=
  {| showParkruns := b; showThemeParks := showThemeParks st;
     parkrunCount := parkrunCount st; themeParkCount := themeParkCount st;
     parkruns := parkruns st; themeParks := themeParks st;
     mapReady := mapReady st;
     parkrunLayer := parkrunLayer st; themeParkLayer := themeParkLayer st;
     toasts := toasts st |}.

Definition set_showThemeParks (b : bool) (st : State) : State :=
  {| showParkruns := showParkruns st; showThemeParks := b;
     parkrunCount := parkrunCount st; themeParkCount := themeParkCount st;
     parkruns := parkruns st; themeParks := themeParks st;
     mapReady := mapReady st;
     parkrunLayer := parkrunLayer st; themeParkLayer := themeParkLayer st;
     toasts := toasts st |}.

(** [setParkruns(events); onParkrunCountChange(n)]. *)
Definition set_parkruns (events : list ParkrunEvent.t) (n : nat) (st : State)
  : State :=
  {| showParkruns := showParkruns st; showThemeParks := showThemeParks st;
     parkrunCount := n; themeParkCount := themeParkCount st;
     parkruns := events; themeParks := themeParks st;
     mapReady := mapReady st;
     parkrunLayer := parkrunLayer st; themeParkLayer := themeParkLayer st;
     toasts := toasts st |}.

(** [setThemeParks(parks); onThemeParkCountChange(n)]. *)
Definition set_themeParks (parks : list ThemePark.t) (n : nat) (st : State)
  : State :=
  {| showParkruns := showParkruns st; showThemeParks := showThemeParks st;
     parkrunCount := parkrunCount st; themeParkCount := n;
     parkruns := parkruns st; themeParks := parks;
     mapReady := mapReady st;
     parkrunLayer := parkrunLayer st; themeParkLayer := themeParkLayer st;
     toasts := toasts st |}.

Definition set_mapReady (b : bool) (st : State) : State :=
  {| showParkruns := showParkruns st; showThemeParks := showThemeParks st;
     parkrunCount := parkrunCount st; themeParkCount := themeParkCount st;
     parkruns := parkruns st; themeParks := themeParks st;
     mapReady := b;
     parkrunLayer := parkrunLayer st; themeParkLayer := themeParkLayer st;
     toasts := toasts st |}.

Definition set_parkrunLayer (l : list Marker) (st : State) : State :=
  {| showParkruns := showParkruns st; showThemeParks := showThemeParks st;
     parkrunCount := parkrunCount st; themeParkCount := themeParkCount st;
     parkruns := parkruns st; themeParks := themeParks st;
     mapReady := mapReady st;
     parkrunLayer := l; themeParkLayer := themeParkLayer st;
     toasts := toasts st |}.

Definition set_themeParkLayer (l : list Marker) (st : State) : State :=
  {| showParkruns := showParkruns st; showThemeParks := showThemeParks st;
     parkrunCount := parkrunCount st; themeParkCount := themeParkCount st;
     parkruns := parkruns st; themeParks := themeParks st;
     mapReady := mapReady st;
     parkrunLayer := parkrunLayer st; themeParkLayer := l;
     toasts := toasts st |}.

Definition toast (t : Toast) (st : State) : State :=
  {| showParkruns := showParkruns st; showThemeParks := showThemeParks st;
     parkrunCount := parkrunCount st; themeParkCount := themeParkCount st;
     parkruns := parkruns st; themeParks := themeParks st;
     mapReady := mapReady st;
     parkrunLayer := parkrunLayer st; themeParkLayer := themeParkLayer st;
     toasts := toasts st ++ [t] |}.

(** *** Callbacks of [Index] *)

(** [() => setShowParkruns(!showParkruns)]. *)
Definition onToggleParkruns (st : State) : State :=
  set_showParkruns (negb (showParkruns st)) st.

(** [() => setShowThemeParks(!showThemeParks)]. *)
Definition onToggleThemeParks (st : State) : State :=
  set_showThemeParks (negb (showThemeParks st)) st.

(** *** Effects of [InteractiveMap] *)

(** "Initialize map": nothing to do when the map exists already.  The
    container reference is set once the component is mounted. *)
Definition initMap (st : State) : State :=
  if mapReady st then st else set_mapReady true st.

(** "Fetch parkrun data": the [try] block, or the [catch] block with the
    sample list and its notice. *)
Definition fetchParkruns (r : Feed.fetchResult) (st : State) : State :=
  match Feed.tryEvents r with
  | Some events => set_parkruns events (length events) st
  | None =>
      toast {| title := "Using sample data";
               description :=
                 "Could not fetch live parkrun data, showing sample locations";
               destructive := false |}
        (set_parkruns Feed.sampleParkruns (length Feed.sampleParkruns) st)
  end.

(** "Load theme park data from provided static data" (first version). *)
Definition loadThemeParks (themeParkData : list StaticList.Item) (st : State)
  : State :=
  let parks := StaticList.parks themeParkData in
  set_themeParks parks (length parks) st.

(** How the CSV request ends (second version): [fetch] or [text()]
    rejects, Papa Parse calls [error], or it calls [complete] with the
    rows. *)
Inductive csvResult : Type :=
  | CsvRejected
  | CsvError
  | CsvComplete (data : list (gmap string string)).

(** "Fetch theme park data from CSV" (second version). *)
Definition fetchThemeParks (r : csvResult) (st : State) : State :=
  match r with
  | CsvComplete data =>
      let parks := Csv.parks data in
      set_themeParks parks (length parks) st
  | CsvError =>
      toast {| title := "Error loading theme parks";
               description := "Could not load theme park data from CSV";
               destructive := true |} st
  | CsvRejected =>
      toast {| title := "Error loading theme parks";
               description := "Could not fetch theme park data";
               destructive := true |} st
  end.

Definition parkrunMarker (parkrun : ParkrunEvent.t) : Marker :=
  {| latlng := (ParkrunEvent.latitude parkrun, ParkrunEvent.longitude parkrun);
     icon := parkrunIcon;
     popup := ParkrunPopup (ParkrunEvent.name parkrun)
                (ParkrunEvent.region parkrun) (ParkrunEvent.country parkrun)
                (ParkrunEvent.status parkrun) |}.

Definition themeParkMarker (park : ThemePark.t) : Marker :=
  {| latlng := (ThemePark.latitude park, ThemePark.longitude park);
     icon := themeParkIcon;
     popup := ThemeParkPopup (ThemePark.name park)
                (if truthy (ThemePark.state park)
                 then Some (ThemePark.state park) else None)
                (ThemePark.country park) |}.

(** "Update parkrun markers": without a map nothing happens; otherwise
    the layer is cleared and, when the flag is set, one marker is added per
    event. *)
Definition updateParkrunMarkers (st : State) : State :=
  if negb (mapReady st) then st
  else
    set_parkrunLayer
      (if showParkruns st then map parkrunMarker (parkruns st) else []) st.

(** "Update theme park markers". *)
Definition updateThemeParkMarkers (st : State) : State :=
  if negb (mapReady st) then st
  else
    set_themeParkLayer
      (if showThemeParks st then map themeParkMarker (themeParks st) else [])
      st.

(** The effects of the first render, in the order they are declared.  The
    two loading effects only start their work here; their results arrive
    as actions. *)
Definition mount (st : State) : State :=
  updateThemeParkMarkers (updateParkrunMarkers (initMap st)).

(** What can happen after the first render: a click on either toggle of
    [MapControls], or the end of one of the loads.  Each changes some state
    and the next render runs the marker effect that depends on it. *)
Inductive action : Type :=
  | ToggleParkruns
  | ToggleThemeParks
  | ParkrunsFetched (r : Feed.fetchResult)
  | ThemeParksLoaded (themeParkData : list StaticList.Item)
  | ThemeParksFetched (r : csvResult).

Definition step (a : action) (st : State) : State :=
  match a with
  | ToggleParkruns => updateParkrunMarkers (onToggleParkruns st)
  | ToggleThemeParks => updateThemeParkMarkers (onToggleThemeParks st)
  | ParkrunsFetched r => updateParkrunMarkers (fetchParkruns r st)
  | ThemeParksLoaded themeParkData =>
      updateThemeParkMarkers (loadThemeParks themeParkData st)
  | ThemeParksFetched r =>
      match r with
      | CsvComplete _ => updateThemeParkMarkers (fetchThemeParks r st)
      | _ => fetchThemeParks r st
      end
  end.

Definition run (actions : list action) (st : State) : State :=
  fold_left (fun s a => step a s) actions st.

Inductive reachable : State -> Prop :=
  | reachable_mount : reachable (mount initialState)
  | reachable_step a st : reachable st -> reachable (step a st).

(** The markers on the map: both layer groups, running events first. *)
Definition visibleMarkers (st : State) : list Marker :=
  parkrunLayer st ++ themeParkLayer st.

(** Every layer holds what its effect last put there. *)
Definition layers_in_sync (st : State) : Prop :=
  mapReady st = true
  /\ parkrunLayer st
     = (if showParkruns st then map parkrunMarker (parkruns st) else [])
  /\ themeParkLayer st
     = (if showThemeParks st then map themeParkMarker (themeParks st) else []).

End App.

(** ** The layer controls *)

Module MapControls.

Inductive Variant : Type := nature | adventure | ghost.

(** A button of the card: its variant, the text and the count of its
    label, and its click handler. *)
Record Button : Type := {
  variant : Variant;
  text : string;
  count : nat;
  onClick : App.State -> App.State
}.

(** The two buttons [MapControls] renders from its props, the one of the
    running events first. *)
Definition render (showParkruns showThemeParks : bool)
    (onToggleParkruns onToggleThemeParks : App.State -> App.State)
    (parkrunCount themeParkCount : nat) : Button * Button :=
  ({| variant := if showParkruns then nature else ghost;
      text := "Parkruns";
      count := parkrunCount;
      onClick := onToggleParkruns |},
   {| variant := if showThemeParks then adventure else ghost;
      text := "Theme Parks";
      count := themeParkCount;
      onClick := onToggleThemeParks |}).

End MapControls.

(** The controls as [Index] renders them in a state. *)
Definition controls (st : App.State) : MapControls.Button * MapControls.Button :=
  MapControls.render (App.showParkruns st) (App.showThemeParks st)
    App.onToggleParkruns App.onToggleThemeParks
    (App.parkrunCount st) (App.themeParkCount st).

(** * Vocabulary of the properties *)

(** ** Signed decimal numerals, the tokens of a well-formed WKT point *)

Inductive digit : Type := D0 | D1 | D2 | D3 | D4 | D5 | D6 | D7 | D8 | D9.

Definition digit_char (d : digit) : ascii :=
  match d with
  | D0 => "0" | D1 => "1" | D2 => "2" | D3 => "3" | D4 => "4"
  | D5 => "5" | D6 => "6" | D7 => "7" | D8 => "8" | D9 => "9"
  end%char.

Definition digit_Z (d : digit) : Z :=
  match d with
  | D0 => 0 | D1 => 1 | D2 => 2 | D3 => 3 | D4 => 4
  | D5 => 5 | D6 => 6 | D7 => 7 | D8 => 8 | D9 => 9
  end.

Fixpoint digits_text (ds : list digit) : string :=
  match ds with
  | [] => EmptyString
  | d :: ds' => String (digit_char d) (digits_text ds')
  end.

Inductive sign : Type := Unsigned | Positive | Negative.

Definition sign_text (s : sign) : string :=
  match s with Unsigned => "" | Positive => "+" | Negative => "-" end.

(** A numeral: a sign, the digits before the point and the digits after
    it (no point is written when there are none). *)
Record numeral : Type := {
  num_sign : sign;
  num_int : list digit;
  num_frac : list digit
}.

Definition frac_text (ds : list digit) : string :=
  match ds with
  | [] => ""
  | _ => String "." (digits_text ds)
  end.

Definition numeral_text (n : numeral) : string :=
  sign_text (num_sign n) +:+ digits_text (num_int n) +:+ frac_text (num_frac n).

(** The number a numeral denotes: its digits read as one integer, shifted
    by the number of digits after the point. *)
Definition numeral_value (n : numeral) : number :=
  let m := digits_value (map digit_Z (num_int n ++ num_frac n)) in
  Fin (scale (match num_sign n with Negative => - m | _ => m end)
             (- Z.of_nat (length (num_frac n)))).

(** A numeral has at least one digit. *)
Definition numeral_ok (n : numeral) : Prop :=
  (num_int n ++ num_frac n)%list <> [].

(** ** Texts *)

(** The text [POINT (x y)]. *)
Definition wkt_point (x y : string) : string :=
  "POINT (" +:+ x +:+ " " +:+ y +:+ ")".

Fixpoint all_chars (keep : ascii -> bool) (s : string) : bool :=
  match s with
  | EmptyString => true
  | String c s' => keep c && all_chars keep s'
  end.

Definition not_rparen (c : ascii) : bool := negb (is_char c ")").

Definition not_space (c : ascii) : bool := negb (is_char c " ").

Definition not_lparen (c : ascii) : bool := negb (is_char c "(").

(** A token: no space and no closing parenthesis inside. *)
Definition token (s : string) : bool :=
  all_chars (fun c => not_space c && not_rparen c) s.

(** The text contains ["POINT ("], one or more characters other than a
    closing parenthesis, and a closing parenthesis. *)
Definition wkt_shape (s : string) : Prop :=
  exists pre g post,
    s = pre +:+ "POINT (" +:+ g +:+ ")" +:+ post
    /\ g <> "" /\ all_chars not_rparen g = true.

(** [r] is empty or begins with a character outside the class. *)
Definition stops (keep : ascii -> bool) (r : string) : Prop :=
  match r with
  | EmptyString => True
  | String c _ => keep c = false
  end.

(** [r] is empty or begins with a character that is not a digit. *)
Definition no_digit_ahead (r : string) : Prop :=
  match r with
  | EmptyString => True
  | String c _ => digit_value c = None
  end.

(** The first character of a numeral without its sign is a digit or the
    point. *)
Definition plain_start (s : string) : Prop :=
  trim_start s = s
  /\ take_sign s = (false, s)
  /\ starts_with "Infinity" s = None.

(** ** Rows, ranges and requests *)

(** The value of the first listed column that the row has with a
    non-empty value. *)
Fixpoint first_filled (row : gmap string string) (names : list string)
  : option string :=
  match names with
  | [] => None
  | k :: rest =>
      match row !! k with
      | Some (String c s) => Some (String c s)
      | _ => first_filled row rest
      end
  end.

(** ASCII lower case, to compare column names up to their casing. *)
Definition lower (c : ascii) : ascii :=
  let n := nat_of_ascii c in
  if ((65 <=? n) && (n <=? 90))%nat then ascii_of_nat (n + 32) else c.

Fixpoint lower_string (s : string) : string :=
  match s with
  | EmptyString => EmptyString
  | String c s' => String (lower c) (lower_string s')
  end.

(** The coordinate ranges: latitude within [-90, 90], longitude within
    [-180, 180]. *)
Definition valid_latitude (n : number) : bool :=
  number_leb (decimal_number (-90) 0) n && number_leb n (decimal_number 90 0).

Definition valid_longitude (n : number) : bool :=
  number_leb (decimal_number (-180) 0) n && number_leb n (decimal_number 180 0).

(** The request failed: no response, a response whose status is not a
    success, or a body that does not decode. *)
Definition fetch_failed (r : Feed.fetchResult) : bool :=
  match r with
  | Feed.FetchRejected => true
  | Feed.FetchResponse false _ => true
  | Feed.FetchResponse true None => true
  | Feed.FetchResponse true (Some _) => false
  end.

(** ** More vocabulary: joined pieces, trailing text, positions *)

(** The pieces put back together with one space between them. *)
Fixpoint join_space (pieces : list string) : string :=
  match pieces with
  | [] => ""
  | [piece] => piece
  | piece :: rest => piece +:+ " " +:+ join_space rest
  end.

(** The number of spaces of a text. *)
Fixpoint count_spaces (s : string) : nat :=
  match s with
  | EmptyString => 0%nat
  | String c s' => ((if is_char c " " then 1 else 0) + count_spaces s')%nat
  end.

(** [rest] cannot continue a number: it is empty or begins with a
    character that is not a digit, a point or an exponent mark. *)
Definition ends_number (rest : string) : Prop :=
  match rest with
  | EmptyString => True
  | String c _ =>
      digit_value c = None /\ is_char c "." = false
      /\ is_char c "e" = false /\ is_char c "E" = false
  end.

Definition not_P (c : ascii) : bool := negb (is_char "P" c).

(** The text of a static item matches the pattern. *)
Definition matched (item : StaticList.Item) : bool :=
  match StaticList.regexp_match (StaticList.wkt item) with
  | Some _ => true
  | None => false
  end.

(** Both coordinates of a position are numbers. *)
Definition position_ok (m : App.Marker) : Prop :=
  isNaN (fst (App.latlng m)) = false /\ isNaN (snd (App.latlng m)) = false.


(** What a state holds for the running events, and for the theme
    parks. *)
Definition parkrun_side (st : App.State)
  : bool * list ParkrunEvent.t * nat * list App.Marker :=
  (App.showParkruns st, App.parkruns st, App.parkrunCount st,
   App.parkrunLayer st).

Definition themePark_side (st : App.State)
  : bool * list ThemePark.t * nat * list App.Marker :=
  (App.showThemeParks st, App.themeParks st, App.themeParkCount st,
   App.themeParkLayer st).

(** Each count is the size of its dataset. *)
Definition counts_in_sync (st : App.State) : Prop :=
  App.parkrunCount st = length (App.parkruns st)
  /\ App.themeParkCount st = length (App.themeParks st).




(** * Inputs used as examples *)

Definition numeral_10 : numeral :=
  {| num_sign := Unsigned; num_int := [D1; D0]; num_frac := [] |}.

Definition numeral_20 : numeral :=
  {| num_sign := Unsigned; num_int := [D2; D0]; num_frac := [] |}.

(** A feed entry with only the required fields. *)
Definition bare_entry : gmap string value :=
  list_to_map [("id", VNum (decimal_number 1 0)); ("name", VStr "A");
               ("latitude", VStr "51.5"); ("longitude", VStr "-1.0")].

(** A feed entry far outside the coordinate ranges. *)
Definition far_entry : gmap string value :=
  list_to_map [("id", VNum (decimal_number 1 0)); ("name", VStr "A");
               ("latitude", VStr "100"); ("longitude", VStr "200")].

(** The entry of the scenario: its latitude is the text "bad". *)
Definition bad_entry : gmap string value :=
  list_to_map [("id", VNum (decimal_number 1 0)); ("name", VStr "A");
               ("latitude", VStr "bad"); ("longitude", VStr "-1.0")].

(** A feed entry whose name is empty. *)
Definition nameless_entry : gmap string value :=
  list_to_map [("id", VNum (decimal_number 1 0)); ("name", VStr "");
               ("latitude", VStr "51.5"); ("longitude", VStr "-1.0")].

(** The row of the scenario. *)
Definition x_park_row : gmap string string :=
  list_to_map [("Name", "X Park"); ("Latitude", "10.5");
               ("Longitude", "-20.25"); ("Country", "Z")].

(** A row without a latitude column. *)
Definition no_latitude_row : gmap string string :=
  list_to_map [("Name", "X Park"); ("Longitude", "-20.25"); ("Country", "Z")].

(** A row with coordinates and an empty name. *)
Definition nameless_row : gmap string string :=
  list_to_map [("name", ""); ("latitude", "10.5"); ("longitude", "-20.25")].

(** A static item whose text lacks the parentheses. *)
Definition unmatched_item : StaticList.Item :=
  {| StaticList.wkt := "POINT 10 20"; StaticList.name := "X Park";
     StaticList.description := "" |}.

(** A static item whose name is empty. *)
Definition nameless_item : StaticList.Item :=
  {| StaticList.wkt := "POINT (10 20)"; StaticList.name := "";
     StaticList.description := "" |}.

(** The state after the feed failed: the five sample events are shown. *)
Definition sample_state : App.State :=
  App.step (App.ParkrunsFetched Feed.FetchRejected)
           (App.mount App.initialState).

(** A state with five running events loaded and both layers switched
    off. *)
Definition both_off_state : App.State :=
  App.run [App.ParkrunsFetched Feed.FetchRejected;
           App.ToggleParkruns; App.ToggleThemeParks]
          (App.mount App.initialState).

(** * Properties *)

(** ** The model on concrete inputs *)

Example parseFloat_fraction : parseFloat "10.5" = Fin (21 # 2).
Proof. reflexivity. Qed.

Example parseFloat_negative : parseFloat "-20.25" = Fin (-81 # 4).
Proof. reflexivity. Qed.

Example parseFloat_prefix : parseFloat "  1.5e3xyz" = Fin (1500 # 1).
Proof. reflexivity. Qed.

Example parseFloat_no_number : parseFloat "bad" = NaN.
Proof. reflexivity. Qed.

Example parseFloat_infinity : parseFloat "-Infinity" = Infinity true.
Proof. reflexivity. Qed.

Example parseFloat_of_undefined : parseFloatOf VUndefined = NaN.
Proof. reflexivity. Qed.

Example decimal_number_literal : decimal_number (-3370) (-4) = Fin (-337 # 1000).
Proof. reflexivity. Qed.

Example numeral_value_example :
  numeral_value {| num_sign := Negative; num_int := [D2; D0];
                   num_frac := [D2; D5] |}
  = Fin (-81 # 4).
Proof. reflexivity. Qed.

Example regexp_match_inside :
  StaticList.regexp_match "see POINT (1 2) and POINT (3 4)" = Some "1 2".
Proof. reflexivity. Qed.

Example regexp_match_empty_group : StaticList.regexp_match "POINT ()" = None.
Proof. reflexivity. Qed.

Example split_space_double : StaticList.split_space "a  b" = ["a"; ""; "b"].
Proof. reflexivity. Qed.

Example parseWKT_first_park :
  StaticList.parseWKT "POINT (-1.5537028 50.9481718)"
  = Some {| StaticList.longitude := decimal_number (-15537028) (-7);
            StaticList.latitude := decimal_number 509481718 (-7) |}.
Proof. reflexivity. Qed.

Example feed_scenario_bad_latitude :
  let data := Feed.DataValue (Feed.EventsArray [Feed.EntryObject bad_entry]) in
  App.parkrunCount
    (App.step (App.ParkrunsFetched (Feed.FetchResponse true (Some data)))
       (App.mount App.initialState))
  = 0%nat.
Proof. reflexivity. Qed.

Example feed_null_entry_falls_back :
  Feed.tryEvents
    (Feed.FetchResponse true
       (Some (Feed.DataValue (Feed.EventsArray [Feed.EntryNull]))))
  = None.
Proof. reflexivity. Qed.

(** ** Numbers *)

Lemma pow10_power e : (pow10 e == inject_Z 10 ^ e)%Q.
Proof.
  unfold pow10. destruct (Z.leb_spec 0 e) as [He | He].
  - apply Zpower_Qpower. exact He.
  - replace e with (- (- e)) at 2 by lia.
    rewrite Qpower_opp, <- Zpower_Qpower by lia.
    assert (Hpos : 0 < 10 ^ (- e)) by (apply Z.pow_pos_nonneg; lia).
    destruct (10 ^ (- e)) as [| p | p]; try lia. reflexivity.
Qed.

(** [scale m e] is the rational [m * 10^e]. *)
Lemma scale_value m e : (scale m e == inject_Z m * inject_Z 10 ^ e)%Q.
Proof. unfold scale. rewrite Qred_correct, pow10_power. reflexivity. Qed.

(** ** The marker layers follow the flags and the datasets *)

Section Layers.
Import App.

Lemma mount_in_sync : layers_in_sync (mount initialState).
Proof. repeat split. Qed.

Lemma updateParkrunMarkers_in_sync st :
  mapReady st = true ->
  themeParkLayer st
  = (if showThemeParks st then map themeParkMarker (themeParks st) else []) ->
  layers_in_sync (updateParkrunMarkers st).
Proof.
  intros Hmap Htheme. unfold updateParkrunMarkers. rewrite Hmap. simpl.
  repeat split; assumption.
Qed.

Lemma updateThemeParkMarkers_in_sync st :
  mapReady st = true ->
  parkrunLayer st
  = (if showParkruns st then map parkrunMarker (parkruns st) else []) ->
  layers_in_sync (updateThemeParkMarkers st).
Proof.
  intros Hmap Hrun. unfold updateThemeParkMarkers. rewrite Hmap. simpl.
  repeat split; assumption.
Qed.

Lemma step_in_sync a st : layers_in_sync st -> layers_in_sync (step a st).
Proof.
  intros (Hmap & Hrun & Htheme).
  destruct a as [| | r | themeParkData | r]; simpl.
  - apply updateParkrunMarkers_in_sync; assumption.
  - apply updateThemeParkMarkers_in_sync; assumption.
  - apply updateParkrunMarkers_in_sync;
      unfold fetchParkruns; destruct (Feed.tryEvents r); assumption.
  - apply updateThemeParkMarkers_in_sync; assumption.
  - destruct r as [| | data].
    + repeat split; assumption.
    + repeat split; assumption.
    + apply updateThemeParkMarkers_in_sync; assumption.
Qed.

Lemma reachable_in_sync st : reachable st -> layers_in_sync st.
Proof.
  induction 1 as [| a st _ IH].
  - exact mount_in_sync.
  - apply step_in_sync, IH.
Qed.

Lemma run_reachable actions st : reachable st -> reachable (run actions st).
Proof.
  revert st. induction actions as [| a actions IH]; intros st Hst.
  - exact Hst.
  - simpl. apply IH. constructor. exact Hst.
Qed.

Lemma in_sync_visible st :
  layers_in_sync st ->
  visibleMarkers st
  = ((if showParkruns st then map parkrunMarker (parkruns st) else [])
     ++ (if showThemeParks st then map themeParkMarker (themeParks st) else []))%list.
Proof.
  intros (_ & Hrun & Htheme). unfold visibleMarkers. rewrite Hrun, Htheme.
  reflexivity.
Qed.

End Layers.

(** C8: in every state the page can reach, whatever the two datasets
    hold, when both visibility flags are false no marker of either
    category is on the map. *)
Theorem both_flags_off_no_markers (st : App.State) :
  App.reachable st ->
  App.showParkruns st = false ->
  App.showThemeParks st = false ->
  App.visibleMarkers st = [].
Proof.
  intros Hreach Hrun Htheme.
  rewrite (in_sync_visible st (reachable_in_sync st Hreach)).
  rewrite Hrun, Htheme. reflexivity.
Qed.

Lemma both_flags_off_no_markers_witness :
  length (App.parkruns both_off_state) = 5%nat
  /\ App.visibleMarkers both_off_state = [].
Proof.
  split; [reflexivity |].
  apply (both_flags_off_no_markers both_off_state).
  - apply run_reachable. constructor.
  - reflexivity.
  - reflexivity.
Defined.

(** C9: in every state the page can reach, two clicks in a row on the
    same toggle, with the datasets unchanged in between, leave the markers
    on the map exactly as they were. *)
Theorem toggle_twice_same_markers (st : App.State) :
  App.reachable st ->
  App.visibleMarkers (App.step App.ToggleParkruns
                        (App.step App.ToggleParkruns st))
  = App.visibleMarkers st
  /\ App.visibleMarkers (App.step App.ToggleThemeParks
                           (App.step App.ToggleThemeParks st))
     = App.visibleMarkers st.
Proof.
  intros Hreach.
  pose proof (reachable_in_sync st Hreach) as Hsync.
  rewrite (in_sync_visible st Hsync).
  split.
  - rewrite in_sync_visible
      by (apply reachable_in_sync; do 2 constructor; exact Hreach).
    destruct Hsync as (Hmap & _ & _).
    simpl. unfold App.updateParkrunMarkers, App.onToggleParkruns. simpl.
    rewrite Hmap. simpl. rewrite Hmap. simpl. rewrite negb_involutive.
    reflexivity.
  - rewrite in_sync_visible
      by (apply reachable_in_sync; do 2 constructor; exact Hreach).
    destruct Hsync as (Hmap & _ & _).
    simpl. unfold App.updateThemeParkMarkers, App.onToggleThemeParks. simpl.
    rewrite Hmap. simpl. rewrite Hmap. simpl. rewrite negb_involutive.
    reflexivity.
Qed.

Lemma toggle_twice_same_markers_witness :
  length (App.visibleMarkers sample_state) = 5%nat
  /\ length (App.visibleMarkers (App.step App.ToggleParkruns sample_state))
     = 0%nat
  /\ App.visibleMarkers (App.step App.ToggleParkruns
                           (App.step App.ToggleParkruns sample_state))
     = App.visibleMarkers sample_state.
Proof.
  split; [reflexivity |]. split; [reflexivity |].
  apply (toggle_twice_same_markers sample_state).
  do 2 constructor.
Defined.

(** ** The feed *)

Lemma fetch_failed_no_events r : fetch_failed r = true -> Feed.tryEvents r = None.
Proof. destruct r as [| [] []]; simpl; congruence. Qed.

Lemma updateParkrunMarkers_parkruns st :
  App.parkruns (App.updateParkrunMarkers st) = App.parkruns st
  /\ App.parkrunCount (App.updateParkrunMarkers st) = App.parkrunCount st.
Proof.
  unfold App.updateParkrunMarkers. destruct (App.mapReady st); split; reflexivity.
Qed.

(** C5: when the request for the running events fails (network error,
    non-success status, or a body that cannot be decoded), the running-events
    dataset becomes the built-in list of five sample events and the count
    reported for that category is 5. *)
Theorem fetch_failure_gives_samples (r : Feed.fetchResult) (st : App.State) :
  fetch_failed r = true ->
  let st' := App.step (App.ParkrunsFetched r) st in
  App.parkruns st' = Feed.sampleParkruns
  /\ length Feed.sampleParkruns = 5%nat
  /\ App.parkrunCount st' = 5%nat.
Proof.
  intros Hfail. simpl.
  destruct (updateParkrunMarkers_parkruns (App.fetchParkruns r st)) as [-> ->].
  unfold App.fetchParkruns. rewrite (fetch_failed_no_events r Hfail).
  repeat split.
Qed.

Lemma fetch_failure_gives_samples_witness :
  let st' := App.step (App.ParkrunsFetched (Feed.FetchResponse false None))
               (App.mount App.initialState) in
  App.parkruns st' = Feed.sampleParkruns
  /\ length Feed.sampleParkruns = 5%nat
  /\ App.parkrunCount st' = 5%nat.
Proof.
  apply (fetch_failure_gives_samples (Feed.FetchResponse false None)
           (App.mount App.initialState)).
  reflexivity.
Defined.

Lemma js_or_defined a b : b <> VUndefined -> js_or a b <> VUndefined.
Proof.
  intros Hb. unfold js_or. destruct (truthy a) eqn:Ha; [| exact Hb].
  intros ->. discriminate Ha.
Qed.

Lemma toEvent_defined get :
  ParkrunEvent.country (Feed.toEvent get) <> VUndefined
  /\ ParkrunEvent.region (Feed.toEvent get) <> VUndefined
  /\ ParkrunEvent.status (Feed.toEvent get) <> VUndefined.
Proof. repeat split; apply js_or_defined; discriminate. Qed.

Lemma transform_defined e ev :
  Feed.transform e = Some ev ->
  ParkrunEvent.country ev <> VUndefined
  /\ ParkrunEvent.region ev <> VUndefined
  /\ ParkrunEvent.status ev <> VUndefined.
Proof.
  destruct e; simpl; intros [= <-]; apply toEvent_defined.
Qed.

Lemma mapM_transform_In entries events ev :
  mapM Feed.transform entries = Some events ->
  In ev events ->
  exists e, In e entries /\ Feed.transform e = Some ev.
Proof.
  intros Hm%mapM_Some_1.
  induction Hm as [| e ev0 entries events He _ IH]; intros Hin.
  - destruct Hin.
  - destruct Hin as [<- | Hin].
    + exists e. split; [left; reflexivity | exact He].
    + destruct (IH Hin) as (e' & Hin' & He').
      exists e'. split; [right; exact Hin' | exact He'].
Qed.

Lemma normalize_In data events ev :
  Feed.normalize data = Some events ->
  In ev events ->
  Feed.keep ev = true
  /\ exists e, Feed.transform e = Some ev.
Proof.
  destruct data as [| [| entries |]]; simpl; try discriminate.
  - intros [= <-] [].
  - destruct (mapM Feed.transform entries) as [evs |] eqn:Hm; [| discriminate].
    simpl. intros [= <-] Hin. apply filter_In in Hin as [Hin Hkeep].
    split; [exact Hkeep |].
    destruct (mapM_transform_In entries evs ev Hm Hin) as (e & _ & He).
    exists e. exact He.
Qed.

(** C10: a feed entry without [country], [region] or [status] gets
    "UK", the empty string and "active" for the missing ones, and every
    record that survives normalization has all three fields defined. *)
Theorem feed_defaults (fields : gmap string value) :
  (exists ev,
     Feed.transform (Feed.EntryObject fields) = Some ev
     /\ (fields !! "country" = None -> ParkrunEvent.country ev = VStr "UK")
     /\ (fields !! "region" = None -> ParkrunEvent.region ev = VStr "")
     /\ (fields !! "status" = None -> ParkrunEvent.status ev = VStr "active"))
  /\ (forall data events ev,
        Feed.normalize data = Some events ->
        In ev events ->
        ParkrunEvent.country ev <> VUndefined
        /\ ParkrunEvent.region ev <> VUndefined
        /\ ParkrunEvent.status ev <> VUndefined).
Proof.
  split.
  - eexists. split; [reflexivity |]. simpl. unfold Feed.prop.
    repeat split; intros ->; reflexivity.
  - intros data events ev Hnorm Hin.
    destruct (normalize_In data events ev Hnorm Hin) as (_ & e & He).
    exact (transform_defined e ev He).
Qed.

Lemma feed_defaults_witness :
  exists ev,
    Feed.normalize (Feed.DataValue (Feed.EventsArray [Feed.EntryObject bare_entry]))
    = Some [ev]
    /\ ParkrunEvent.country ev = VStr "UK"
    /\ ParkrunEvent.region ev = VStr ""
    /\ ParkrunEvent.status ev = VStr "active"
    /\ ParkrunEvent.country ev <> VUndefined.
Proof.
  destruct (feed_defaults bare_entry) as [(ev & Hev & Hc & Hr & Hs) Hall].
  exists ev.
  assert (Hnorm : Feed.normalize
                    (Feed.DataValue (Feed.EventsArray [Feed.EntryObject bare_entry]))
                  = Some [ev]).
  { simpl in Hev. injection Hev as <-. vm_compute. reflexivity. }
  split; [exact Hnorm |].
  split; [apply Hc; vm_compute; reflexivity |].
  split; [apply Hr; vm_compute; reflexivity |].
  split; [apply Hs; vm_compute; reflexivity |].
  apply (Hall _ _ ev Hnorm). left. reflexivity.
Defined.

(** ** The CSV rows *)

(** C7: the row [{Name: "X Park", Latitude: "10.5", Longitude: "-20.25",
    Country: "Z"}] is kept and normalized to the record with name
    "X Park", latitude 10.5, longitude -20.25 and country "Z" (its state is
    the empty string). *)
Theorem x_park_row_normalized :
  Csv.parks [x_park_row]
  = [ {| ThemePark.name := VStr "X Park";
         ThemePark.latitude := decimal_number 105 (-1);
         ThemePark.longitude := decimal_number (-2025) (-2);
         ThemePark.country := VStr "Z";
         ThemePark.state := VStr "" |} ].
Proof. vm_compute. reflexivity. Qed.

(** ** Strings *)

Lemma is_char_refl c : is_char c c = true.
Proof. apply Ascii.eqb_refl. Qed.

Lemma starts_with_app p s : starts_with p (p +:+ s) = Some s.
Proof.
  induction p as [| a p IH]; simpl.
  - destruct s; reflexivity.
  - rewrite is_char_refl. exact IH.
Qed.

Lemma starts_with_Some p s r : starts_with p s = Some r -> s = p +:+ r.
Proof.
  revert s. induction p as [| a p IH]; intros s; simpl.
  - destruct s; intros [= <-]; reflexivity.
  - destruct s as [| b s]; [discriminate |].
    unfold is_char. destruct (Ascii.eqb_spec a b) as [<- |]; [| discriminate].
    intros H. rewrite (IH s H). reflexivity.
Qed.

Lemma span_class_app keep g r :
  all_chars keep g = true -> stops keep r ->
  span_class keep (g +:+ r) = (g, r).
Proof.
  intros Hg Hr. induction g as [| c g IH]; simpl in *.
  - destruct r as [| c r]; simpl in *; [reflexivity |]. rewrite Hr. reflexivity.
  - apply andb_true_iff in Hg as [Hc Hg]. rewrite Hc, (IH Hg). reflexivity.
Qed.

Lemma span_class_inv keep s g r :
  span_class keep s = (g, r) ->
  s = g +:+ r /\ all_chars keep g = true /\ stops keep r.
Proof.
  revert g r. induction s as [| c s IH]; intros g r; simpl.
  - intros [= <- <-]. repeat split.
  - destruct (keep c) eqn:Hc.
    + destruct (span_class keep s) as [g' r'] eqn:Hs.
      intros [= <- <-]. destruct (IH g' r' eq_refl) as (-> & Hg & Hr).
      simpl. rewrite Hc. repeat split; assumption.
    + intros [= <- <-]. simpl. repeat split. exact Hc.
Qed.

Lemma append_assoc (a b c : string) : (a +:+ b) +:+ c = a +:+ (b +:+ c).
Proof. induction a as [| x a IH]; simpl; [reflexivity | rewrite IH; reflexivity]. Qed.

Lemma append_empty (a : string) : a +:+ "" = a.
Proof. induction a as [| x a IH]; simpl; [reflexivity | rewrite IH; reflexivity]. Qed.

Lemma all_chars_app keep a b :
  all_chars keep (a +:+ b) = all_chars keep a && all_chars keep b.
Proof.
  induction a as [| x a IH]; simpl; [reflexivity |].
  rewrite IH. apply andb_assoc.
Qed.

Lemma all_chars_weaken (p q : ascii -> bool) s :
  (forall c, p c = true -> q c = true) ->
  all_chars p s = true -> all_chars q s = true.
Proof.
  intros Hpq. induction s as [| c s IH]; simpl; [reflexivity |].
  intros [Hc Hs]%andb_true_iff. rewrite (Hpq c Hc), (IH Hs). reflexivity.
Qed.

Lemma token_not_rparen s : token s = true -> all_chars not_rparen s = true.
Proof.
  apply all_chars_weaken. intros c [_ H]%andb_true_iff. exact H.
Qed.

Lemma token_not_space s : token s = true -> all_chars not_space s = true.
Proof.
  apply all_chars_weaken. intros c [H _]%andb_true_iff. exact H.
Qed.

(** ** The pattern of [parseWKT] *)

Section Pattern.
Import StaticList.

Lemma match_here_intro g post :
  g <> "" -> all_chars not_rparen g = true ->
  match_here ("POINT (" +:+ g +:+ ")" +:+ post) = Some g.
Proof.
  intros Hne Hg. unfold match_here. rewrite starts_with_app.
  change (fun c => negb (is_char c ")")) with not_rparen.
  rewrite (span_class_app not_rparen g (")" +:+ post) Hg) by reflexivity.
  destruct g as [| c g]; [congruence | reflexivity].
Qed.

Lemma match_here_inv s g :
  match_here s = Some g ->
  exists post,
    s = "POINT (" +:+ g +:+ ")" +:+ post
    /\ g <> "" /\ all_chars not_rparen g = true.
Proof.
  unfold match_here. destruct (starts_with "POINT (" s) as [r |] eqn:Hs;
    [| discriminate].
  apply starts_with_Some in Hs.
  change (fun c => negb (is_char c ")")) with not_rparen.
  destruct (span_class not_rparen r) as [g' r'] eqn:Hspan.
  apply span_class_inv in Hspan as (Hr & Hg & _).
  destruct g' as [| c g']; [discriminate |].
  destruct r' as [| d r']; [discriminate |].
  unfold is_char. destruct (Ascii.eqb_spec d ")") as [-> |]; [| discriminate].
  intros [= <-]. exists r'. rewrite Hs, Hr. repeat split; [discriminate | exact Hg].
Qed.

Lemma regexp_match_unfold s :
  regexp_match s
  = match match_here s with
    | Some g => Some g
    | None =>
        match s with
        | EmptyString => None
        | String _ s' => regexp_match s'
        end
    end.
Proof. destruct s; reflexivity. Qed.

Lemma regexp_match_None s :
  regexp_match s = None <-> (forall pre t, s = pre +:+ t -> match_here t = None).
Proof.
  induction s as [| c s IH]; rewrite regexp_match_unfold.
  - split.
    + intros _ pre t Heq. destruct pre; [| discriminate].
      simpl in Heq. subst t. reflexivity.
    + intros _. reflexivity.
  - destruct (match_here (String c s)) as [g |] eqn:Hhere.
    + split; [discriminate |].
      intros H. rewrite (H "" (String c s) eq_refl) in Hhere. discriminate.
    + rewrite IH. split.
      * intros H pre t Heq. destruct pre as [| d pre]; simpl in Heq.
        -- subst t. exact Hhere.
        -- injection Heq as _ Heq. exact (H pre t Heq).
      * intros H pre t Heq. apply (H (String c pre) t). simpl. rewrite Heq.
        reflexivity.
Qed.

Lemma regexp_match_Some s g :
  regexp_match s = Some g ->
  exists pre post,
    s = pre +:+ "POINT (" +:+ g +:+ ")" +:+ post
    /\ g <> "" /\ all_chars not_rparen g = true.
Proof.
  induction s as [| c s IH]; rewrite regexp_match_unfold.
  - discriminate.
  - destruct (match_here (String c s)) as [g' |] eqn:Hhere.
    + intros [= ->]. destruct (match_here_inv _ _ Hhere) as (post & Hs & Hg).
      exists "", post. split; [exact Hs | exact Hg].
    + intros H. destruct (IH H) as (pre & post & Hs & Hg).
      exists (String c pre), post. split; [| exact Hg].
      simpl. rewrite Hs. reflexivity.
Qed.

Lemma parseWKT_None_iff s : parseWKT s = None <-> ~ wkt_shape s.
Proof.
  unfold parseWKT. split.
  - destruct (regexp_match s) as [g |] eqn:Hm; [discriminate |].
    intros _ (pre & g & post & Hs & Hne & Hg).
    rewrite regexp_match_None in Hm.
    pose proof (Hm pre _ Hs) as Hnone.
    rewrite (match_here_intro g post Hne Hg) in Hnone. discriminate.
  - intros Hshape. destruct (regexp_match s) as [g |] eqn:Hm; [| reflexivity].
    destruct Hshape. destruct (regexp_match_Some s g Hm) as (pre & post & H).
    exists pre, g, post. exact H.
Qed.

Lemma parseWKT_group g post :
  g <> "" -> all_chars not_rparen g = true ->
  parseWKT ("POINT (" +:+ g +:+ ")" +:+ post)
  = Some {| longitude := parseFloatOf (index (split_space g) 0);
            latitude := parseFloatOf (index (split_space g) 1) |}.
Proof.
  intros Hne Hg. unfold parseWKT.
  rewrite regexp_match_unfold, (match_here_intro g post Hne Hg). reflexivity.
Qed.

Lemma split_space_token y :
  all_chars not_space y = true -> split_space y = [y].
Proof.
  induction y as [| c y IH]; simpl; [reflexivity |].
  intros [Hc Hy]%andb_true_iff. unfold not_space in Hc.
  apply negb_true_iff in Hc. rewrite Hc, (IH Hy). reflexivity.
Qed.

Lemma split_space_app x rest :
  all_chars not_space x = true ->
  split_space (x +:+ " " +:+ rest) = x :: split_space rest.
Proof.
  induction x as [| c x IH]; simpl in *; [reflexivity |].
  intros [Hc Hx]%andb_true_iff. unfold not_space in Hc.
  apply negb_true_iff in Hc. rewrite Hc, (IH Hx). reflexivity.
Qed.

End Pattern.

(** ** Reading a numeral back *)

Lemma digit_value_char d : digit_value (digit_char d) = Some (digit_Z d).
Proof. destruct d; reflexivity. Qed.

Lemma take_digits_text ds r :
  no_digit_ahead r ->
  take_digits (digits_text ds +:+ r) = (map digit_Z ds, r).
Proof.
  intros Hr. induction ds as [| d ds IH]; simpl.
  - destruct r as [| c r]; simpl in *; [reflexivity |]. rewrite Hr. reflexivity.
  - rewrite digit_value_char, IH. reflexivity.
Qed.

Lemma frac_text_no_digit ds : no_digit_ahead (frac_text ds).
Proof. destruct ds; reflexivity. Qed.

Lemma read_decimal_numeral neg int frac :
  (int ++ frac)%list <> [] ->
  read_decimal neg (digits_text int +:+ frac_text frac)
  = Fin (scale (let m := digits_value (map digit_Z (int ++ frac)) in
                if neg then - m else m)
               (- Z.of_nat (length frac))).
Proof.
  intros Hne. unfold read_decimal.
  rewrite (take_digits_text int _ (frac_text_no_digit frac)).
  assert (Hfrac :
    match frac_text frac with
    | String c r => if is_char c "." then take_digits r else ([], frac_text frac)
    | EmptyString => ([], frac_text frac)
    end = (map digit_Z frac, "")).
  { destruct frac as [| d frac]; [reflexivity |].
    unfold frac_text. rewrite is_char_refl.
    pose proof (take_digits_text (d :: frac) "" I) as Htake.
    rewrite append_empty in Htake. exact Htake. }
  rewrite Hfrac. rewrite <- map_app, length_map.
  destruct (map digit_Z (int ++ frac)) as [| z zs] eqn:Hmap.
  - apply map_eq_nil in Hmap. contradiction.
  - reflexivity.
Qed.

Lemma numeral_body_plain int frac :
  plain_start (digits_text int +:+ frac_text frac).
Proof.
  destruct int as [| d int].
  - destruct frac as [| d frac]; repeat split.
  - destruct d; repeat split.
Qed.

Lemma parseFloat_plain s :
  plain_start s -> parseFloat s = read_decimal false s.
Proof.
  intros (Htrim & Hsign & Hinf). unfold parseFloat.
  rewrite Htrim, Hsign, Hinf. reflexivity.
Qed.

Lemma parseFloat_signed (c : ascii) (neg : bool) s :
  is_white_space c = false ->
  take_sign (String c s) = (neg, s) ->
  starts_with "Infinity" s = None ->
  parseFloat (String c s) = read_decimal neg s.
Proof.
  intros Hc Hsign Hinf. unfold parseFloat.
  change (trim_start (String c s))
    with (if is_white_space c then trim_start s else String c s).
  rewrite Hc, Hsign, Hinf. reflexivity.
Qed.

Lemma parseFloat_numeral n :
  numeral_ok n -> parseFloat (numeral_text n) = numeral_value n.
Proof.
  destruct n as [sg int frac]. unfold numeral_ok, numeral_text, numeral_value.
  cbn [num_sign num_int num_frac]. intros Hne.
  pose proof (numeral_body_plain int frac) as Hplain.
  destruct sg; cbn [sign_text String.append].
  - rewrite (parseFloat_plain _ Hplain). apply read_decimal_numeral, Hne.
  - rewrite (parseFloat_signed "+" false) by (reflexivity || apply Hplain).
    apply read_decimal_numeral, Hne.
  - rewrite (parseFloat_signed "-" true) by (reflexivity || apply Hplain).
    apply read_decimal_numeral, Hne.
Qed.

Lemma digits_text_token ds : token (digits_text ds) = true.
Proof.
  induction ds as [| d ds IH]; [reflexivity |].
  change (token (digits_text (d :: ds)))
    with (not_space (digit_char d) && not_rparen (digit_char d)
          && token (digits_text ds)).
  rewrite IH. destruct d; reflexivity.
Qed.

Lemma numeral_token n : token (numeral_text n) = true.
Proof.
  destruct n as [sg int frac]. unfold numeral_text, token. simpl.
  rewrite !all_chars_app.
  fold (token (digits_text int)). rewrite digits_text_token.
  assert (Hsg : all_chars (fun c => not_space c && not_rparen c) (sign_text sg)
                = true) by (destruct sg; reflexivity).
  assert (Hfrac : all_chars (fun c => not_space c && not_rparen c)
                    (frac_text frac) = true).
  { destruct frac as [| d frac]; [reflexivity |].
    exact (digits_text_token (d :: frac)). }
  rewrite Hsg, Hfrac. reflexivity.
Qed.

(** ** parseWKT on texts of the form POINT (...) *)

Section ParseWKT.
Import StaticList.

Lemma parseWKT_one_token t :
  t <> "" -> token t = true ->
  parseWKT ("POINT (" +:+ t +:+ ")")
  = Some {| longitude := parseFloat t; latitude := NaN |}.
Proof.
  intros Hne Ht.
  change ("POINT (" +:+ t +:+ ")") with ("POINT (" +:+ t +:+ ")" +:+ "").
  rewrite (parseWKT_group t "" Hne (token_not_rparen t Ht)).
  rewrite (split_space_token t (token_not_space t Ht)). reflexivity.
Qed.

Lemma parseWKT_two_tokens x y :
  token x = true -> token y = true ->
  parseWKT (wkt_point x y)
  = Some {| longitude := parseFloat x; latitude := parseFloat y |}.
Proof.
  intros Hx Hy. unfold wkt_point.
  assert (Heq : "POINT (" +:+ x +:+ " " +:+ y +:+ ")"
                = "POINT (" +:+ (x +:+ " " +:+ y) +:+ ")" +:+ "")
    by (rewrite !append_assoc; reflexivity).
  rewrite Heq, parseWKT_group.
  - rewrite (split_space_app x y (token_not_space x Hx)).
    rewrite (split_space_token y (token_not_space y Hy)). reflexivity.
  - destruct x; discriminate.
  - rewrite !all_chars_app, (token_not_rparen x Hx), (token_not_rparen y Hy).
    reflexivity.
Qed.

Lemma parseWKT_more_tokens x y rest :
  token x = true -> token y = true -> all_chars not_rparen rest = true ->
  parseWKT ("POINT (" +:+ x +:+ " " +:+ y +:+ " " +:+ rest +:+ ")")
  = Some {| longitude := parseFloat x; latitude := parseFloat y |}.
Proof.
  intros Hx Hy Hrest.
  assert (Heq : "POINT (" +:+ x +:+ " " +:+ y +:+ " " +:+ rest +:+ ")"
                = "POINT (" +:+ (x +:+ " " +:+ y +:+ " " +:+ rest)
                  +:+ ")" +:+ "")
    by (rewrite !append_assoc; reflexivity).
  rewrite Heq, parseWKT_group.
  - rewrite (split_space_app x _ (token_not_space x Hx)).
    rewrite (split_space_app y _ (token_not_space y Hy)). reflexivity.
  - destruct x; discriminate.
  - rewrite !all_chars_app, (token_not_rparen x Hx), (token_not_rparen y Hy),
      Hrest. reflexivity.
Qed.

Lemma wkt_shape_parentheses s :
  wkt_shape s ->
  all_chars not_lparen s = false /\ all_chars not_rparen s = false.
Proof.
  intros (pre & g & post & -> & _ & _). split.
  - rewrite all_chars_app. simpl. apply andb_false_r.
  - rewrite all_chars_app. simpl. rewrite all_chars_app. simpl.
    rewrite !andb_false_r. reflexivity.
Qed.

End ParseWKT.

(** C1: for numerals [x] and [y], parsing the text ["POINT (x y)"] returns
    the pair whose longitude is the number [x] denotes and whose latitude is
    the number [y] denotes: the first token is the longitude. *)
Theorem parseWKT_well_formed (x y : numeral) :
  numeral_ok x -> numeral_ok y ->
  StaticList.parseWKT (wkt_point (numeral_text x) (numeral_text y))
  = Some {| StaticList.longitude := numeral_value x;
            StaticList.latitude := numeral_value y |}.
Proof.
  intros Hx Hy.
  rewrite (parseWKT_two_tokens _ _ (numeral_token x) (numeral_token y)).
  rewrite (parseFloat_numeral x Hx), (parseFloat_numeral y Hy). reflexivity.
Qed.

Lemma parseWKT_well_formed_witness :
  StaticList.parseWKT "POINT (10 20)"
  = Some {| StaticList.longitude := Fin (10 # 1);
            StaticList.latitude := Fin (20 # 1) |}.
Proof.
  apply (parseWKT_well_formed numeral_10 numeral_20); discriminate.
Defined.

(** C2, as stated, fails: a non-numeric token, a single token and three
    tokens between the parentheses all give a pair, not null. *)
Lemma parseWKT_malformed_not_null :
  StaticList.parseWKT "POINT (abc 20)"
  = Some {| StaticList.longitude := NaN; StaticList.latitude := Fin (20 # 1) |}
  /\ StaticList.parseWKT "POINT (10)"
     = Some {| StaticList.longitude := Fin (10 # 1); StaticList.latitude := NaN |}
  /\ StaticList.parseWKT "POINT (10 20 30)"
     = Some {| StaticList.longitude := Fin (10 # 1);
               StaticList.latitude := Fin (20 # 1) |}.
Proof. repeat split. Qed.

(** C2, amended: [parseWKT] returns null exactly for the texts that do not
    contain ["POINT ("], one or more characters other than a closing
    parenthesis, and a closing parenthesis; so a text without an opening or
    without a closing parenthesis gives null.  A text of that form gives a
    pair: with one token the latitude is NaN, tokens after the second are
    ignored, and each of two tokens, numeric or not, is read by
    [parseFloat].  The function is total: it does not throw. *)
Theorem parseWKT_null_exactly (s : string) :
  (StaticList.parseWKT s = None <-> ~ wkt_shape s)
  /\ (all_chars not_lparen s = true \/ all_chars not_rparen s = true ->
      StaticList.parseWKT s = None)
  /\ (forall t, t <> "" -> token t = true ->
      StaticList.parseWKT ("POINT (" +:+ t +:+ ")")
      = Some {| StaticList.longitude := parseFloat t;
                StaticList.latitude := NaN |})
  /\ (forall x y, token x = true -> token y = true ->
      StaticList.parseWKT (wkt_point x y)
      = Some {| StaticList.longitude := parseFloat x;
                StaticList.latitude := parseFloat y |})
  /\ (forall x y rest,
      token x = true -> token y = true -> all_chars not_rparen rest = true ->
      StaticList.parseWKT
        ("POINT (" +:+ x +:+ " " +:+ y +:+ " " +:+ rest +:+ ")")
      = Some {| StaticList.longitude := parseFloat x;
                StaticList.latitude := parseFloat y |}).
Proof.
  split; [apply parseWKT_None_iff |].
  split.
  - intros Hparen. apply parseWKT_None_iff. intros Hshape.
    destruct (wkt_shape_parentheses s Hshape) as [Hl Hr].
    destruct Hparen; congruence.
  - split; [exact parseWKT_one_token |].
    split; [exact parseWKT_two_tokens | exact parseWKT_more_tokens].
Qed.

Lemma parseWKT_null_exactly_witness :
  StaticList.parseWKT "POINT 10 20" = None
  /\ StaticList.parseWKT "POINT (10"
     = None
  /\ StaticList.parseWKT "POINT (abc)"
     = Some {| StaticList.longitude := NaN; StaticList.latitude := NaN |}
  /\ StaticList.parseWKT "POINT (abc 20)"
     = Some {| StaticList.longitude := NaN;
               StaticList.latitude := Fin (20 # 1) |}
  /\ StaticList.parseWKT "POINT (10 20 30)"
     = Some {| StaticList.longitude := Fin (10 # 1);
               StaticList.latitude := Fin (20 # 1) |}.
Proof.
  destruct (parseWKT_null_exactly "POINT 10 20") as (_ & Hopen & _).
  destruct (parseWKT_null_exactly "POINT (10")
    as (_ & Hclose & Hone & Htwo & Hmore).
  split; [apply Hopen; left; reflexivity |].
  split; [apply Hclose; right; reflexivity |].
  split; [apply (Hone "abc"); [discriminate | reflexivity] |].
  split; [apply (Htwo "abc" "20"); reflexivity |].
  apply (Hmore "10" "20" "30"); reflexivity.
Defined.

(** ** Which records survive *)

Section Survivors.

Lemma csv_parks_In rows park :
  In park (Csv.parks rows) ->
  Csv.keep park = true /\ exists row, In row rows /\ park = Csv.toPark row.
Proof.
  unfold Csv.parks. intros [Hin Hkeep]%filter_In.
  apply in_map_iff in Hin as (row & <- & Hrow).
  split; [exact Hkeep |]. exists row. split; [exact Hrow | reflexivity].
Qed.

Lemma csv_parks_skip before row after :
  Csv.keep (Csv.toPark row) = false ->
  Csv.parks (before ++ row :: after) = Csv.parks (before ++ after).
Proof.
  intros Hkeep. unfold Csv.parks.
  rewrite !map_app, !List.filter_app. simpl. rewrite Hkeep. reflexivity.
Qed.

Lemma csv_name_first_filled row :
  ThemePark.name (Csv.toPark row)
  = VStr (default "" (first_filled row ["name"; "Name"])).
Proof.
  simpl. unfold Csv.prop.
  destruct (row !! "name") as [[| ? ?] |];
    destruct (row !! "Name") as [[| ? ?] |]; reflexivity.
Qed.

Lemma static_parks_skip before item after :
  StaticList.parseWKT (StaticList.wkt item) = None ->
  StaticList.parks (before ++ item :: after)
  = StaticList.parks (before ++ after).
Proof.
  intros Hnull. unfold StaticList.parks.
  rewrite !map_app, !omap_app. simpl. unfold StaticList.toPark at 2.
  rewrite Hnull. reflexivity.
Qed.

Lemma feed_skip before e ev after :
  Feed.transform e = Some ev -> Feed.keep ev = false ->
  List.filter Feed.keep <$> mapM Feed.transform (before ++ e :: after)
  = List.filter Feed.keep <$> mapM Feed.transform (before ++ after).
Proof.
  intros He Hkeep. induction before as [| a before IH]; simpl.
  - rewrite He. simpl. destruct (mapM Feed.transform after); simpl;
      [rewrite Hkeep |]; reflexivity.
  - destruct (Feed.transform a) as [y |]; simpl; [| reflexivity].
    destruct (mapM Feed.transform (before ++ e :: after)) as [l1 |];
      destruct (mapM Feed.transform (before ++ after)) as [l2 |];
      simpl in *; try discriminate; [| reflexivity].
    injection IH as IH. rewrite IH. reflexivity.
Qed.

Lemma feed_keeps e ev :
  Feed.transform e = Some ev ->
  isNaN (ParkrunEvent.latitude ev) = false ->
  isNaN (ParkrunEvent.longitude ev) = false ->
  Feed.normalize (Feed.DataValue (Feed.EventsArray [e])) = Some [ev].
Proof.
  intros He Hlat Hlon. simpl. rewrite He. simpl. unfold Feed.keep.
  rewrite Hlat, Hlon. reflexivity.
Qed.

Lemma csv_keeps row :
  truthy (ThemePark.name (Csv.toPark row)) = true ->
  isNaN (ThemePark.latitude (Csv.toPark row)) = false ->
  isNaN (ThemePark.longitude (Csv.toPark row)) = false ->
  Csv.parks [row] = [Csv.toPark row].
Proof.
  intros Hname Hlat Hlon. unfold Csv.parks. simpl. unfold Csv.keep.
  rewrite Hname, Hlat, Hlon. reflexivity.
Qed.

Lemma static_keeps item coords :
  StaticList.parseWKT (StaticList.wkt item) = Some coords ->
  StaticList.parks [item]
  = [ {| ThemePark.name := VStr (StaticList.name item);
         ThemePark.latitude := StaticList.latitude coords;
         ThemePark.longitude := StaticList.longitude coords;
         ThemePark.country := VStr "International";
         ThemePark.state := VUndefined |} ].
Proof.
  intros Hcoords. unfold StaticList.parks. simpl. unfold StaticList.toPark.
  rewrite Hcoords. reflexivity.
Qed.

End Survivors.

(** C3, as stated, fails: a feed entry with latitude 100 and longitude 200
    is kept, counted and drawn. *)
Lemma out_of_range_record_kept :
  let data := Feed.DataValue (Feed.EventsArray [Feed.EntryObject far_entry]) in
  let st := App.step (App.ParkrunsFetched (Feed.FetchResponse true (Some data)))
              (App.mount App.initialState) in
  exists ev,
    Feed.normalize data = Some [ev]
    /\ ParkrunEvent.latitude ev = Fin (100 # 1)
    /\ valid_latitude (ParkrunEvent.latitude ev) = false
    /\ ParkrunEvent.longitude ev = Fin (200 # 1)
    /\ valid_longitude (ParkrunEvent.longitude ev) = false
    /\ App.parkrunCount st = 1%nat
    /\ App.visibleMarkers st = [App.parkrunMarker ev].
Proof.
  eexists. split; [vm_compute; reflexivity |]. repeat split.
Qed.

(** C3, amended: a record one of whose coordinates is NaN after
    [parseFloat] is dropped by the feed path and by the CSV path, so the
    records of those datasets have two coordinates that are not NaN; the
    static path drops a record whose text does not match the pattern.  The
    ranges are not checked: a record with two coordinates that are not NaN
    is kept by the feed path, by the CSV path when its name is not empty,
    and by the static path when its text matches. *)
Theorem nan_records_dropped :
  (forall before e ev after,
     Feed.transform e = Some ev ->
     isNaN (ParkrunEvent.latitude ev) = true
     \/ isNaN (ParkrunEvent.longitude ev) = true ->
     Feed.normalize (Feed.DataValue (Feed.EventsArray (before ++ e :: after)))
     = Feed.normalize (Feed.DataValue (Feed.EventsArray (before ++ after))))
  /\ (forall data events ev,
        Feed.normalize data = Some events -> In ev events ->
        isNaN (ParkrunEvent.latitude ev) = false
        /\ isNaN (ParkrunEvent.longitude ev) = false)
  /\ (forall e ev,
        Feed.transform e = Some ev ->
        isNaN (ParkrunEvent.latitude ev) = false ->
        isNaN (ParkrunEvent.longitude ev) = false ->
        Feed.normalize (Feed.DataValue (Feed.EventsArray [e])) = Some [ev])
  /\ (forall before row after,
        isNaN (ThemePark.latitude (Csv.toPark row)) = true
        \/ isNaN (ThemePark.longitude (Csv.toPark row)) = true ->
        Csv.parks (before ++ row :: after) = Csv.parks (before ++ after))
  /\ (forall rows park,
        In park (Csv.parks rows) ->
        isNaN (ThemePark.latitude park) = false
        /\ isNaN (ThemePark.longitude park) = false)
  /\ (forall row,
        truthy (ThemePark.name (Csv.toPark row)) = true ->
        isNaN (ThemePark.latitude (Csv.toPark row)) = false ->
        isNaN (ThemePark.longitude (Csv.toPark row)) = false ->
        Csv.parks [row] = [Csv.toPark row])
  /\ (forall before item after,
        StaticList.parseWKT (StaticList.wkt item) = None ->
        StaticList.parks (before ++ item :: after)
        = StaticList.parks (before ++ after))
  /\ (forall item coords,
        StaticList.parseWKT (StaticList.wkt item) = Some coords ->
        isNaN (StaticList.latitude coords) = false ->
        isNaN (StaticList.longitude coords) = false ->
        StaticList.parks [item]
        = [ {| ThemePark.name := VStr (StaticList.name item);
               ThemePark.latitude := StaticList.latitude coords;
               ThemePark.longitude := StaticList.longitude coords;
               ThemePark.country := VStr "International";
               ThemePark.state := VUndefined |} ]).
Proof.
  repeat apply conj.
  - intros before e ev after He Hnan. simpl. apply (feed_skip _ e ev _ He).
    unfold Feed.keep. destruct Hnan as [-> | ->]; [| rewrite andb_false_r];
      reflexivity.
  - intros data events ev Hnorm Hin.
    destruct (normalize_In data events ev Hnorm Hin) as [Hkeep _].
    unfold Feed.keep in Hkeep. apply andb_true_iff in Hkeep as [Hlat Hlon].
    split; apply negb_true_iff; assumption.
  - exact feed_keeps.
  - intros before row after Hnan. apply csv_parks_skip. unfold Csv.keep.
    destruct Hnan as [-> | ->]; rewrite ?andb_false_r; reflexivity.
  - intros rows park Hin. destruct (csv_parks_In rows park Hin) as [Hkeep _].
    unfold Csv.keep in Hkeep.
    apply andb_true_iff in Hkeep as [[_ Hlat]%andb_true_iff Hlon].
    split; apply negb_true_iff; assumption.
  - exact csv_keeps.
  - exact static_parks_skip.
  - intros item coords Hcoords _ _. exact (static_keeps item coords Hcoords).
Qed.

Lemma nan_records_dropped_witness :
  Feed.normalize (Feed.DataValue (Feed.EventsArray [Feed.EntryObject bad_entry]))
  = Some []
  /\ isNaN (ParkrunEvent.latitude (Feed.toEvent (Feed.prop bare_entry))) = false
  /\ Feed.normalize (Feed.DataValue (Feed.EventsArray [Feed.EntryObject far_entry]))
     = Some [Feed.toEvent (Feed.prop far_entry)]
  /\ Csv.parks [no_latitude_row; x_park_row] = Csv.parks [x_park_row]
  /\ isNaN (ThemePark.latitude (Csv.toPark x_park_row)) = false
  /\ Csv.parks [x_park_row] = [Csv.toPark x_park_row]
  /\ StaticList.parks [unmatched_item] = []
  /\ length (StaticList.parks [nameless_item]) = 1%nat.
Proof.
  destruct nan_records_dropped
    as (Hfeed & Hfeed_in & Hfeed_keep & Hcsv & Hcsv_in & Hcsv_keep
        & Hstatic & Hstatic_keep).
  split.
  { apply (Hfeed [] (Feed.EntryObject bad_entry) _ [] eq_refl).
    left. reflexivity. }
  split.
  { apply (Hfeed_in
             (Feed.DataValue (Feed.EventsArray [Feed.EntryObject bare_entry]))
             [Feed.toEvent (Feed.prop bare_entry)]);
      [vm_compute; reflexivity | left; reflexivity]. }
  split.
  { apply (Hfeed_keep (Feed.EntryObject far_entry)); reflexivity. }
  split.
  { apply (Hcsv [] no_latitude_row [x_park_row]). left. reflexivity. }
  split.
  { apply (Hcsv_in [x_park_row] (Csv.toPark x_park_row)).
    vm_compute. left. reflexivity. }
  split.
  { apply (Hcsv_keep x_park_row); reflexivity. }
  split.
  { apply (Hstatic [] unmatched_item []). reflexivity. }
  rewrite (Hstatic_keep nameless_item
             {| StaticList.longitude := Fin (10 # 1);
                StaticList.latitude := Fin (20 # 1) |} eq_refl eq_refl eq_refl).
  reflexivity.
Defined.

(** C4, as stated, fails: the feed path and the static path keep a
    record whose name is empty. *)
Lemma empty_name_record_kept :
  (exists ev,
     Feed.normalize
       (Feed.DataValue (Feed.EventsArray [Feed.EntryObject nameless_entry]))
     = Some [ev]
     /\ ParkrunEvent.name ev = VStr "")
  /\ (exists park,
        StaticList.parks [nameless_item] = [park]
        /\ ThemePark.name park = VStr "").
Proof.
  split; eexists; (split; [vm_compute; reflexivity | reflexivity]).
Qed.

(** C4, amended: the CSV path drops every row whose name is empty
    (neither [name] nor [Name] holds a non-empty value), and every record
    of the CSV dataset has a non-empty name.  The feed path and the static
    path do not look at the name: an entry or an item with two coordinates
    that are not NaN is kept with the name it has, empty or not. *)
Theorem csv_empty_name_dropped :
  (forall before row after,
     first_filled row ["name"; "Name"] = None ->
     Csv.parks (before ++ row :: after) = Csv.parks (before ++ after))
  /\ (forall rows park,
        In park (Csv.parks rows) ->
        exists c s, ThemePark.name park = VStr (String c s))
  /\ (forall fields,
        isNaN (parseFloatOf (Feed.prop fields "latitude")) = false ->
        isNaN (parseFloatOf (Feed.prop fields "longitude")) = false ->
        exists ev,
          Feed.normalize
            (Feed.DataValue (Feed.EventsArray [Feed.EntryObject fields]))
          = Some [ev]
          /\ ParkrunEvent.name ev = Feed.prop fields "name")
  /\ (forall item coords,
        StaticList.parseWKT (StaticList.wkt item) = Some coords ->
        isNaN (StaticList.latitude coords) = false ->
        isNaN (StaticList.longitude coords) = false ->
        exists park,
          StaticList.parks [item] = [park]
          /\ ThemePark.name park = VStr (StaticList.name item)).
Proof.
  repeat apply conj.
  - intros before row after Hname. apply csv_parks_skip. unfold Csv.keep.
    rewrite csv_name_first_filled, Hname. reflexivity.
  - intros rows park Hin.
    destruct (csv_parks_In rows park Hin) as (Hkeep & row & _ & ->).
    unfold Csv.keep in Hkeep.
    apply andb_true_iff in Hkeep as [[Hname _]%andb_true_iff _].
    rewrite csv_name_first_filled in Hname |- *.
    destruct (default "" (first_filled row ["name"; "Name"])) as [| c s].
    + discriminate Hname.
    + exists c, s. reflexivity.
  - intros fields Hlat Hlon. exists (Feed.toEvent (Feed.prop fields)).
    split; [| reflexivity].
    apply feed_keeps; [reflexivity | exact Hlat | exact Hlon].
  - intros item coords Hcoords _ _. eexists.
    split; [apply static_keeps, Hcoords | reflexivity].
Qed.

Lemma csv_empty_name_dropped_witness :
  Csv.parks [x_park_row; nameless_row] = Csv.parks [x_park_row]
  /\ (exists c s,
        ThemePark.name (Csv.toPark x_park_row) = VStr (String c s))
  /\ (exists ev,
        Feed.normalize
          (Feed.DataValue (Feed.EventsArray [Feed.EntryObject nameless_entry]))
        = Some [ev]
        /\ ParkrunEvent.name ev = Feed.prop nameless_entry "name")
  /\ (exists park,
        StaticList.parks [nameless_item] = [park]
        /\ ThemePark.name park = VStr (StaticList.name nameless_item)).
Proof.
  destruct csv_empty_name_dropped as (Hdrop & Hin & Hfeed & Hstatic).
  split.
  { apply (Hdrop [x_park_row] nameless_row []). reflexivity. }
  split.
  { apply (Hin [x_park_row]). left. reflexivity. }
  split.
  { apply (Hfeed nameless_entry); reflexivity. }
  apply (Hstatic nameless_item
           {| StaticList.longitude := Fin (10 # 1);
              StaticList.latitude := Fin (20 # 1) |}); reflexivity.
Defined.

(** ** Column names *)

(** C6, as stated, fails: [NAME] and [Lat] are casings of accepted
    aliases, but their values are not read. *)
Lemma other_casing_not_matched :
  lower_string "NAME" = lower_string "name"
  /\ ThemePark.name (Csv.toPark {["name" := "X Park"]}) = VStr "X Park"
  /\ ThemePark.name (Csv.toPark {["NAME" := "X Park"]}) = VStr ""
  /\ lower_string "Lat" = lower_string "lat"
  /\ ThemePark.latitude (Csv.toPark {["lat" := "10.5"]}) = Fin (21 # 2)
  /\ ThemePark.latitude (Csv.toPark {["Lat" := "10.5"]}) = NaN.
Proof. repeat split. Qed.

(** C6, amended: the parser reads the columns under the exact spellings
    [name], [Name]; [latitude], [Latitude], [lat]; [longitude],
    [Longitude], [lng], [lon]; [country], [Country]; [state], [State].
    Each field comes from the first of its spellings whose column holds a
    non-empty value (the empty string, or NaN for a coordinate, when there
    is none), and a column under any other name, another casing included,
    changes nothing. *)
Theorem csv_columns_exact (row : gmap string string) :
  Csv.toPark row
  = {| ThemePark.name :=
         VStr (default "" (first_filled row ["name"; "Name"]));
       ThemePark.latitude :=
         from_option parseFloat NaN
           (first_filled row ["latitude"; "Latitude"; "lat"]);
       ThemePark.longitude :=
         from_option parseFloat NaN
           (first_filled row ["longitude"; "Longitude"; "lng"; "lon"]);
       ThemePark.country :=
         VStr (default "" (first_filled row ["country"; "Country"]));
       ThemePark.state :=
         VStr (default "" (first_filled row ["state"; "State"])) |}
  /\ (forall k v,
        ~ In k Csv.aliases ->
        Csv.toPark (<[k := v]> row) = Csv.toPark row).
Proof.
  split.
  - unfold Csv.toPark, Csv.prop, first_filled. f_equal.
    + destruct (row !! "name") as [[| ? ?] |];
        destruct (row !! "Name") as [[| ? ?] |]; reflexivity.
    + destruct (row !! "latitude") as [[| ? ?] |];
        destruct (row !! "Latitude") as [[| ? ?] |];
        destruct (row !! "lat") as [[| ? ?] |]; reflexivity.
    + destruct (row !! "longitude") as [[| ? ?] |];
        destruct (row !! "Longitude") as [[| ? ?] |];
        destruct (row !! "lng") as [[| ? ?] |];
        destruct (row !! "lon") as [[| ? ?] |]; reflexivity.
    + destruct (row !! "country") as [[| ? ?] |];
        destruct (row !! "Country") as [[| ? ?] |]; reflexivity.
    + destruct (row !! "state") as [[| ? ?] |];
        destruct (row !! "State") as [[| ? ?] |]; reflexivity.
  - intros k v Hk. unfold Csv.toPark, Csv.prop.
    rewrite !lookup_insert_ne
      by (intros ->; apply Hk; unfold Csv.aliases; simpl; tauto).
    reflexivity.
Qed.

Lemma csv_columns_exact_witness :
  Csv.toPark (<["NAME" := "Y Park"]> x_park_row) = Csv.toPark x_park_row.
Proof.
  apply (csv_columns_exact x_park_row).
  unfold Csv.aliases. simpl. intros H.
  repeat (destruct H as [H | H]; [discriminate H |]). exact H.
Defined.

(** * Further properties of the page *)

Section Page.
Import App.

Lemma updateParkrunMarkers_frame st :
  showParkruns (updateParkrunMarkers st) = showParkruns st
  /\ parkruns (updateParkrunMarkers st) = parkruns st
  /\ parkrunCount (updateParkrunMarkers st) = parkrunCount st
  /\ toasts (updateParkrunMarkers st) = toasts st
  /\ themePark_side (updateParkrunMarkers st) = themePark_side st.
Proof.
  unfold updateParkrunMarkers. destruct (mapReady st); repeat split.
Qed.

Lemma updateThemeParkMarkers_frame st :
  showThemeParks (updateThemeParkMarkers st) = showThemeParks st
  /\ themeParks (updateThemeParkMarkers st) = themeParks st
  /\ themeParkCount (updateThemeParkMarkers st) = themeParkCount st
  /\ toasts (updateThemeParkMarkers st) = toasts st
  /\ parkrun_side (updateThemeParkMarkers st) = parkrun_side st.
Proof.
  unfold updateThemeParkMarkers. destruct (mapReady st); repeat split.
Qed.

Lemma step_counts a st : counts_in_sync st -> counts_in_sync (step a st).
Proof.
  intros [Hrun Htheme]. unfold counts_in_sync.
  destruct a as [| | r | themeParkData | [| | data]]; simpl;
    try (split; assumption);
    match goal with
    | |- context [updateParkrunMarkers ?x] =>
        destruct (updateParkrunMarkers_frame x) as (_ & -> & -> & _ & Hside)
    | |- context [updateThemeParkMarkers ?x] =>
        destruct (updateThemeParkMarkers_frame x) as (_ & -> & -> & _ & Hside)
    end;
    injection Hside as _ -> -> _.
  - split; assumption.
  - split; assumption.
  - unfold fetchParkruns. destruct (Feed.tryEvents r); split; simpl;
      reflexivity || assumption.
  - split; simpl; reflexivity || assumption.
  - split; simpl; reflexivity || assumption.
Qed.

Lemma reachable_counts st : reachable st -> counts_in_sync st.
Proof.
  induction 1 as [| a st _ IH]; [split; reflexivity | apply step_counts, IH].
Qed.

End Page.

(** X1: in every state the page can reach, the count reported for each
    category is the number of records of its dataset. *)
Theorem counts_match_datasets (st : App.State) :
  App.reachable st ->
  App.parkrunCount st = length (App.parkruns st)
  /\ App.themeParkCount st = length (App.themeParks st).
Proof. intros Hreach. exact (reachable_counts st Hreach). Qed.

Lemma counts_match_datasets_witness :
  App.parkrunCount both_off_state = length (App.parkruns both_off_state)
  /\ App.themeParkCount both_off_state = length (App.themeParks both_off_state).
Proof.
  apply (counts_match_datasets both_off_state).
  apply run_reachable. constructor.
Defined.

(** X2: in every state the page can reach, the markers on the map are the
    markers of the running events when their flag is set, followed by the
    markers of the theme parks when their flag is set, each in the order
    of its dataset. *)
Theorem visible_markers_follow_flags (st : App.State) :
  App.reachable st ->
  App.visibleMarkers st
  = ((if App.showParkruns st
      then map App.parkrunMarker (App.parkruns st) else [])
     ++ (if App.showThemeParks st
         then map App.themeParkMarker (App.themeParks st) else []))%list.
Proof.
  intros Hreach. apply in_sync_visible, reachable_in_sync, Hreach.
Qed.

Lemma visible_markers_follow_flags_witness :
  App.visibleMarkers sample_state
  = map App.parkrunMarker Feed.sampleParkruns.
Proof.
  rewrite (visible_markers_follow_flags sample_state) by (do 2 constructor).
  reflexivity.
Defined.

(** X3: in every state the page can reach, each button of the controls
    shows the size of its dataset; a button that is not [ghost] has that
    many markers in its layer, and a [ghost] button has none. *)
Theorem controls_match_map (st : App.State) :
  App.reachable st ->
  let runs := fst (controls st) in
  let parks := snd (controls st) in
  MapControls.count runs = length (App.parkruns st)
  /\ MapControls.count parks = length (App.themeParks st)
  /\ length (App.parkrunLayer st)
     = match MapControls.variant runs with
       | MapControls.ghost => 0%nat
       | _ => MapControls.count runs
       end
  /\ length (App.themeParkLayer st)
     = match MapControls.variant parks with
       | MapControls.ghost => 0%nat
       | _ => MapControls.count parks
       end.
Proof.
  intros Hreach. simpl.
  destruct (reachable_counts st Hreach) as [Hrun Htheme].
  destruct (reachable_in_sync st Hreach) as (_ & Hlrun & Hltheme).
  rewrite Hlrun, Hltheme, Hrun, Htheme.
  repeat split.
  - destruct (App.showParkruns st); [apply length_map | reflexivity].
  - destruct (App.showThemeParks st); [apply length_map | reflexivity].
Qed.

Lemma controls_match_map_witness :
  MapControls.count (fst (controls sample_state)) = 5%nat
  /\ MapControls.variant (fst (controls sample_state)) = MapControls.nature
  /\ length (App.parkrunLayer sample_state) = 5%nat
  /\ MapControls.variant (fst (controls both_off_state)) = MapControls.ghost
  /\ length (App.parkrunLayer both_off_state) = 0%nat.
Proof.
  assert (Hsample : App.reachable sample_state) by (do 2 constructor).
  assert (Hoff : App.reachable both_off_state)
    by (apply run_reachable; constructor).
  destruct (controls_match_map sample_state Hsample) as (Hc & _ & Hl & _).
  destruct (controls_match_map both_off_state Hoff) as (_ & _ & Hl' & _).
  split; [exact Hc |]. split; [reflexivity |]. split; [exact Hl |].
  split; [reflexivity | exact Hl'].
Defined.

(** X4: the two categories do not touch each other.  A click on the
    running-events toggle and the end of the running-events request,
    whatever its outcome, leave the flag, dataset, count and layer of the
    theme parks as they are; a click on the theme-parks toggle and the end
    of either theme-park load leave those of the running events as they
    are. *)
Theorem categories_independent (st : App.State) :
  themePark_side (App.step App.ToggleParkruns st) = themePark_side st
  /\ (forall r,
        themePark_side (App.step (App.ParkrunsFetched r) st)
        = themePark_side st)
  /\ parkrun_side (App.step App.ToggleThemeParks st) = parkrun_side st
  /\ (forall themeParkData,
        parkrun_side (App.step (App.ThemeParksLoaded themeParkData) st)
        = parkrun_side st)
  /\ (forall r,
        parkrun_side (App.step (App.ThemeParksFetched r) st)
        = parkrun_side st).
Proof.
  repeat apply conj.
  - simpl.
    destruct (updateParkrunMarkers_frame (App.onToggleParkruns st))
      as (_ & _ & _ & _ & ->).
    reflexivity.
  - intros r. simpl.
    destruct (updateParkrunMarkers_frame (App.fetchParkruns r st))
      as (_ & _ & _ & _ & ->).
    unfold App.fetchParkruns. destruct (Feed.tryEvents r); reflexivity.
  - simpl.
    destruct (updateThemeParkMarkers_frame (App.onToggleThemeParks st))
      as (_ & _ & _ & _ & ->).
    reflexivity.
  - intros themeParkData. simpl.
    destruct (updateThemeParkMarkers_frame (App.loadThemeParks themeParkData st))
      as (_ & _ & _ & _ & ->).
    reflexivity.
  - intros [| | data]; simpl; try reflexivity.
    match goal with
    | |- context [App.updateThemeParkMarkers ?x] =>
        destruct (updateThemeParkMarkers_frame x) as (_ & _ & _ & _ & ->)
    end.
    reflexivity.
Qed.

(** X5: each marker effect gives the same state when it runs twice as
    when it runs once, and the two marker effects give the same state in
    either order, with or without a map. *)
Theorem marker_effects_compose (st : App.State) :
  App.updateParkrunMarkers (App.updateParkrunMarkers st)
  = App.updateParkrunMarkers st
  /\ App.updateThemeParkMarkers (App.updateThemeParkMarkers st)
     = App.updateThemeParkMarkers st
  /\ App.updateParkrunMarkers (App.updateThemeParkMarkers st)
     = App.updateThemeParkMarkers (App.updateParkrunMarkers st).
Proof.
  unfold App.updateParkrunMarkers, App.updateThemeParkMarkers.
  destruct (App.mapReady st) eqn:Hmap; simpl; rewrite ?Hmap; simpl;
    repeat split.
Qed.

(** * Further properties of the loaders *)









Lemma tryEvents_keep r events ev :
  Feed.tryEvents r = Some events -> In ev events -> Feed.keep ev = true.
Proof.
  destruct r as [| [] [data |]]; simpl; try discriminate.
  intros Hnorm Hin. exact (proj1 (normalize_In data events ev Hnorm Hin)).
Qed.

Lemma sampleParkruns_keep ev :
  In ev Feed.sampleParkruns -> Feed.keep ev = true.
Proof.
  simpl. intros H.
  repeat (destruct H as [<- | H]; [reflexivity |]). destruct H.
Qed.

Lemma reachable_parkruns_keep st :
  App.reachable st -> forall ev, In ev (App.parkruns st) -> Feed.keep ev = true.
Proof.
  induction 1 as [| a st _ IH]; [intros ev [] |].
  destruct a as [| | r | themeParkData | [| | data]]; simpl; try exact IH;
    match goal with
    | |- context [App.updateParkrunMarkers ?x] =>
        destruct (updateParkrunMarkers_frame x) as (_ & -> & _)
    | |- context [App.updateThemeParkMarkers ?x] =>
        destruct (updateThemeParkMarkers_frame x) as (_ & _ & _ & _ & Hside);
        injection Hside as _ -> _ _
    end; try exact IH.
  unfold App.fetchParkruns. destruct (Feed.tryEvents r) as [events |] eqn:Hr.
  - intros ev Hin. exact (tryEvents_keep r events ev Hr Hin).
  - exact sampleParkruns_keep.
Qed.

(** X8: in every state the page can reach, every marker of the
    running-events layer has a position whose latitude and longitude are
    both numbers, never NaN. *)
Theorem parkrun_markers_positioned (st : App.State) :
  App.reachable st ->
  forall m, In m (App.parkrunLayer st) -> position_ok m.
Proof.
  intros Hreach m Hin.
  destruct (reachable_in_sync st Hreach) as (_ & Hlayer & _).
  rewrite Hlayer in Hin. destruct (App.showParkruns st); [| destruct Hin].
  apply in_map_iff in Hin as (ev & <- & Hev).
  pose proof (reachable_parkruns_keep st Hreach ev Hev) as Hkeep.
  unfold Feed.keep in Hkeep. apply andb_true_iff in Hkeep as [Hlat Hlon].
  split; apply negb_true_iff; assumption.
Qed.

(** The state after a feed with one good and one bad entry arrived. *)
Lemma parkrun_markers_positioned_witness :
  let st :=
    App.step
      (App.ParkrunsFetched
         (Feed.FetchResponse true
            (Some (Feed.DataValue
               (Feed.EventsArray
                  [Feed.EntryObject bad_entry; Feed.EntryObject bare_entry])))))
      (App.mount App.initialState) in
  length (App.parkrunLayer st) = 1%nat
  /\ forall m, In m (App.parkrunLayer st) -> position_ok m.
Proof.
  simpl. split; [reflexivity |].
  apply (parkrun_markers_positioned
           (App.step
              (App.ParkrunsFetched
                 (Feed.FetchResponse true
                    (Some (Feed.DataValue
                       (Feed.EventsArray
                          [Feed.EntryObject bad_entry;
                           Feed.EntryObject bare_entry])))))
              (App.mount App.initialState))).
  do 2 constructor.
Defined.

(** X9: when the CSV load fails, by a rejected request or by an error of
    the parser, nothing is substituted: flags, datasets, counts and layers
    stay as they are, and one destructive notice titled "Error loading
    theme parks" is added. *)
Theorem csv_failure_changes_nothing (r : App.csvResult) (st : App.State) :
  (forall data, r <> App.CsvComplete data) ->
  let st' := App.step (App.ThemeParksFetched r) st in
  themePark_side st' = themePark_side st
  /\ parkrun_side st' = parkrun_side st
  /\ App.visibleMarkers st' = App.visibleMarkers st
  /\ exists notice,
       App.toasts st' = (App.toasts st ++ [notice])%list
       /\ App.title notice = "Error loading theme parks"
       /\ App.destructive notice = true.
Proof.
  intros Hfail. destruct r as [| | data].
  - simpl. repeat split. eexists. repeat split.
  - simpl. repeat split. eexists. repeat split.
  - destruct (Hfail data eq_refl).
Qed.

Lemma csv_failure_changes_nothing_witness :
  App.visibleMarkers (App.step (App.ThemeParksFetched App.CsvRejected) sample_state)
  = App.visibleMarkers sample_state
  /\ App.themeParks (App.step (App.ThemeParksFetched App.CsvError) sample_state)
     = [].
Proof.
  split.
  - apply (csv_failure_changes_nothing App.CsvRejected sample_state).
    discriminate.
  - destruct (csv_failure_changes_nothing App.CsvError sample_state)
      as (Hside & _); [discriminate |].
    exact (f_equal (fun side => snd (fst (fst side))) Hside).
Defined.

Lemma csv_parks_app a b : Csv.parks (a ++ b) = (Csv.parks a ++ Csv.parks b)%list.
Proof. unfold Csv.parks. rewrite map_app, List.filter_app. reflexivity. Qed.

Lemma static_parks_app a b :
  StaticList.parks (a ++ b) = (StaticList.parks a ++ StaticList.parks b)%list.
Proof. unfold StaticList.parks. rewrite map_app, omap_app. reflexivity. Qed.

Lemma static_parks_cons item data :
  StaticList.parks (item :: data)
  = match StaticList.toPark item with
    | Some park => park :: StaticList.parks data
    | None => StaticList.parks data
    end.
Proof. unfold StaticList.parks. simpl. destruct (StaticList.toPark item); reflexivity. Qed.

(** X10: the CSV path and the static path treat every record on its own:
    the dataset of two lists put end to end is the two datasets put end to
    end, so a dropped record never affects the others, a record that is
    kept adds exactly one to the count, and the count never exceeds the
    number of records read. *)
Theorem records_processed_independently :
  (forall a b, Csv.parks (a ++ b) = (Csv.parks a ++ Csv.parks b)%list)
  /\ (forall a b,
        StaticList.parks (a ++ b)
        = (StaticList.parks a ++ StaticList.parks b)%list)
  /\ (forall before row after,
        length (Csv.parks (before ++ row :: after))
        = (length (Csv.parks (before ++ after))
           + (if Csv.keep (Csv.toPark row) then 1 else 0))%nat)
  /\ (forall before item after,
        length (StaticList.parks (before ++ item :: after))
        = (length (StaticList.parks (before ++ after))
           + (if matched item then 1 else 0))%nat)
  /\ (forall rows, (length (Csv.parks rows) <= length rows)%nat)
  /\ (forall data, (length (StaticList.parks data) <= length data)%nat).
Proof.
  repeat apply conj.
  - exact csv_parks_app.
  - exact static_parks_app.
  - intros before row after.
    rewrite !csv_parks_app, !length_app.
    change (row :: after) with ([row] ++ after)%list.
    rewrite csv_parks_app, length_app. unfold Csv.parks at 2. simpl.
    destruct (Csv.keep (Csv.toPark row)); simpl; lia.
  - intros before item after.
    rewrite !static_parks_app, !length_app, static_parks_cons.
    unfold matched, StaticList.toPark, StaticList.parseWKT.
    destruct (StaticList.regexp_match (StaticList.wkt item)); simpl; lia.
  - intros rows. unfold Csv.parks.
    etransitivity; [apply List.filter_length_le | rewrite length_map; lia].
  - intros data. induction data as [| item data IH]; [simpl; lia |].
    rewrite static_parks_cons. destruct (StaticList.toPark item); simpl; lia.
Qed.

(** X11: the static path keeps the items whose text matches the pattern,
    in their order and under their own names; every record it builds has
    the country "International" and no state. *)
Theorem static_parks_names_in_order (themeParkData : list StaticList.Item) :
  map ThemePark.name (StaticList.parks themeParkData)
  = map (fun item => VStr (StaticList.name item))
        (List.filter matched themeParkData)
  /\ (forall park,
        In park (StaticList.parks themeParkData) ->
        ThemePark.country park = VStr "International"
        /\ ThemePark.state park = VUndefined).
Proof.
  induction themeParkData as [| item data [IHnames IHpark]].
  - split; [reflexivity | intros park []].
  - rewrite static_parks_cons. simpl.
    unfold matched at 1, StaticList.toPark, StaticList.parseWKT.
    destruct (StaticList.regexp_match (StaticList.wkt item)); simpl.
    + split; [rewrite IHnames; reflexivity |].
      intros park [<- | Hin]; [split; reflexivity | exact (IHpark park Hin)].
    + split; assumption.
Qed.

Section Unanchored.
Import StaticList.

Lemma match_here_not_P c s : not_P c = true -> match_here (String c s) = None.
Proof.
  unfold not_P, match_here. intros Hc%negb_true_iff.
  cbn [starts_with]. rewrite Hc. reflexivity.
Qed.

Lemma regexp_match_skip pre t :
  all_chars not_P pre = true -> regexp_match (pre +:+ t) = regexp_match t.
Proof.
  induction pre as [| c pre IH]; [reflexivity |].
  intros H. change (not_P c && all_chars not_P pre = true) in H.
  apply andb_true_iff in H as [Hc Hpre].
  change (String c pre +:+ t) with (String c (pre +:+ t)).
  rewrite regexp_match_unfold, (match_here_not_P c _ Hc). exact (IH Hpre).
Qed.

End Unanchored.

(** X12: the pattern is not anchored.  Text before ["POINT ("] that holds
    no letter [P], and any text after the closing parenthesis, do not change
    what [parseWKT] returns. *)
Theorem parseWKT_unanchored (pre g post : string) :
  all_chars not_P pre = true ->
  g <> "" ->
  all_chars not_rparen g = true ->
  StaticList.parseWKT (pre +:+ "POINT (" +:+ g +:+ ")" +:+ post)
  = StaticList.parseWKT ("POINT (" +:+ g +:+ ")").
Proof.
  intros Hpre Hne Hg. unfold StaticList.parseWKT at 1.
  rewrite (regexp_match_skip pre _ Hpre).
  change (StaticList.parseWKT ("POINT (" +:+ g +:+ ")" +:+ post)
          = StaticList.parseWKT ("POINT (" +:+ g +:+ ")" +:+ "")).
  rewrite !parseWKT_group by assumption. reflexivity.
Qed.

Lemma parseWKT_unanchored_witness :
  StaticList.parseWKT "SRID=4326;MULTIPOINT (10 20), (30 40)"
  = StaticList.parseWKT "POINT (10 20)".
Proof.
  apply (parseWKT_unanchored "SRID=4326;MULTI" "10 20" ", (30 40)");
    [reflexivity | discriminate | reflexivity].
Defined.

(** X13: the tokens are split at every single space.  With two spaces
    between two tokens the latitude is NaN, and with a space right after the
    opening parenthesis the longitude is NaN and the first token becomes
    the latitude. *)
Theorem parseWKT_extra_space (x y : string) :
  token x = true -> token y = true ->
  StaticList.parseWKT ("POINT (" +:+ x +:+ "  " +:+ y +:+ ")")
  = Some {| StaticList.longitude := parseFloat x;
            StaticList.latitude := NaN |}
  /\ StaticList.parseWKT ("POINT ( " +:+ x +:+ " " +:+ y +:+ ")")
     = Some {| StaticList.longitude := NaN;
               StaticList.latitude := parseFloat x |}.
Proof.
  intros Hx Hy. split.
  - exact (parseWKT_more_tokens x "" y Hx eq_refl (token_not_rparen y Hy)).
  - exact (parseWKT_more_tokens "" x y eq_refl Hx (token_not_rparen y Hy)).
Qed.

Lemma parseWKT_extra_space_witness :
  StaticList.parseWKT "POINT (10  20)"
  = Some {| StaticList.longitude := Fin (10 # 1); StaticList.latitude := NaN |}
  /\ StaticList.parseWKT "POINT ( 10 20)"
     = Some {| StaticList.longitude := NaN;
               StaticList.latitude := Fin (10 # 1) |}.
Proof. apply (parseWKT_extra_space "10" "20"); reflexivity. Defined.

Lemma split_space_nonempty s : StaticList.split_space s <> [].
Proof.
  destruct s as [| c s]; simpl; [discriminate |].
  destruct (is_char c " "); [discriminate |].
  destruct (StaticList.split_space s); discriminate.
Qed.

Lemma join_space_cons piece rest :
  rest <> [] -> join_space (piece :: rest) = piece +:+ " " +:+ join_space rest.
Proof. destruct rest; [congruence | reflexivity]. Qed.

(** X14: splitting at spaces loses nothing: the pieces joined with one
    space give the text back, no piece holds a space, and there is one
    piece more than there are spaces. *)
Theorem split_space_join (s : string) :
  join_space (StaticList.split_space s) = s
  /\ (forall piece,
        In piece (StaticList.split_space s) ->
        all_chars not_space piece = true)
  /\ length (StaticList.split_space s) = S (count_spaces s).
Proof.
  induction s as [| c s (IHjoin & IHpiece & IHlen)].
  - repeat split. intros piece [<- | []]. reflexivity.
  - simpl. destruct (is_char c " ") eqn:Hc.
    + apply Ascii.eqb_eq in Hc as ->. repeat split.
      * rewrite join_space_cons by apply split_space_nonempty.
        simpl. rewrite IHjoin. reflexivity.
      * intros piece [<- | Hin]; [reflexivity | exact (IHpiece piece Hin)].
      * simpl. rewrite IHlen. reflexivity.
    + pose proof (split_space_nonempty s) as Hne.
      destruct (StaticList.split_space s) as [| h t]; [congruence |].
      repeat split.
      * rewrite <- IHjoin. destruct t; reflexivity.
      * intros piece [<- | Hin].
        -- simpl. unfold not_space at 1. rewrite Hc. simpl.
           apply IHpiece. left. reflexivity.
        -- apply IHpiece. right. exact Hin.
      * exact IHlen.
Qed.

(** ** Numbers with text around them *)

Lemma ends_number_no_digit rest : ends_number rest -> no_digit_ahead rest.
Proof. destruct rest; simpl; tauto. Qed.

Lemma take_exponent_ends rest : ends_number rest -> take_exponent rest = 0.
Proof.
  destruct rest as [| c r]; simpl; [reflexivity |].
  intros (_ & _ & -> & ->). reflexivity.
Qed.

Lemma frac_rest_no_digit frac rest :
  ends_number rest -> no_digit_ahead (frac_text frac +:+ rest).
Proof.
  intros Hrest. destruct frac; [| reflexivity].
  simpl. apply ends_number_no_digit, Hrest.
Qed.

Lemma read_decimal_numeral_rest neg int frac rest :
  (int ++ frac)%list <> [] ->
  ends_number rest ->
  read_decimal neg (digits_text int +:+ frac_text frac +:+ rest)
  = Fin (scale (let m := digits_value (map digit_Z (int ++ frac)) in
                if neg then - m else m)
               (- Z.of_nat (length frac))).
Proof.
  intros Hne Hrest. unfold read_decimal.
  rewrite (take_digits_text int _ (frac_rest_no_digit frac rest Hrest)).
  assert (Hfrac :
    match frac_text frac +:+ rest with
    | String c r =>
        if is_char c "." then take_digits r else ([], frac_text frac +:+ rest)
    | EmptyString => ([], frac_text frac +:+ rest)
    end = (map digit_Z frac, rest)).
  { destruct frac as [| d frac].
    - simpl. destruct rest as [| c r]; [reflexivity |].
      destruct Hrest as (_ & -> & _). reflexivity.
    - unfold frac_text.
      change (String "." (digits_text (d :: frac)) +:+ rest)
        with (String "." (digits_text (d :: frac) +:+ rest)).
      cbv beta iota. rewrite is_char_refl.
      apply take_digits_text, ends_number_no_digit, Hrest. }
  rewrite Hfrac, (take_exponent_ends rest Hrest).
  rewrite <- map_app, length_map.
  destruct (map digit_Z (int ++ frac)) as [| z zs] eqn:Hmap.
  - apply map_eq_nil in Hmap. contradiction.
  - reflexivity.
Qed.

Lemma numeral_body_rest_plain int frac rest :
  (int ++ frac)%list <> [] ->
  plain_start (digits_text int +:+ frac_text frac +:+ rest).
Proof.
  intros Hne. destruct int as [| d int].
  - destruct frac as [| d frac]; [contradiction | repeat split].
  - destruct d; repeat split.
Qed.

Lemma parseFloat_numeral_rest n rest :
  numeral_ok n -> ends_number rest ->
  parseFloat (numeral_text n +:+ rest) = numeral_value n.
Proof.
  destruct n as [sg int frac]. unfold numeral_ok, numeral_text, numeral_value.
  cbn [num_sign num_int num_frac]. intros Hne Hrest.
  rewrite !append_assoc.
  pose proof (numeral_body_rest_plain int frac rest Hne) as Hplain.
  destruct sg; cbn [sign_text String.append].
  - rewrite (parseFloat_plain _ Hplain).
    apply read_decimal_numeral_rest; assumption.
  - rewrite (parseFloat_signed "+" false) by (reflexivity || apply Hplain).
    apply read_decimal_numeral_rest; assumption.
  - rewrite (parseFloat_signed "-" true) by (reflexivity || apply Hplain).
    apply read_decimal_numeral_rest; assumption.
Qed.

Lemma trim_start_app ws s :
  all_chars is_white_space ws = true -> trim_start (ws +:+ s) = trim_start s.
Proof.
  induction ws as [| c ws IH]; [reflexivity |].
  intros H. change (is_white_space c && all_chars is_white_space ws = true) in H.
  apply andb_true_iff in H as [Hc Hws].
  change (String c ws +:+ s) with (String c (ws +:+ s)).
  change (trim_start (String c (ws +:+ s)))
    with (if is_white_space c then trim_start (ws +:+ s) else String c (ws +:+ s)).
  rewrite Hc. exact (IH Hws).
Qed.

Lemma parseFloat_leading_space ws s :
  all_chars is_white_space ws = true -> parseFloat (ws +:+ s) = parseFloat s.
Proof.
  intros Hws. unfold parseFloat. rewrite (trim_start_app ws s Hws). reflexivity.
Qed.

Lemma parseFloat_number_nonempty s q : parseFloat s = Fin q -> truthy (VStr s) = true.
Proof. destruct s; [discriminate | reflexivity]. Qed.

(** X15: a coordinate is read from the start of its text.  White space
    before a numeral, and any text after it that cannot continue a number,
    are ignored by [parseFloat]; so a feed entry or a CSV row whose latitude
    is such a text gets the value of the numeral as its latitude. *)
Theorem coordinate_read_from_prefix (n : numeral) (ws rest : string) :
  numeral_ok n ->
  all_chars is_white_space ws = true ->
  ends_number rest ->
  let text := ws +:+ numeral_text n +:+ rest in
  parseFloat text = numeral_value n
  /\ (forall get,
        get "latitude" = VStr text ->
        ParkrunEvent.latitude (Feed.toEvent get) = numeral_value n)
  /\ (forall row : gmap string string,
        row !! "latitude" = Some text ->
        ThemePark.latitude (Csv.toPark row) = numeral_value n).
Proof.
  intros Hn Hws Hrest text.
  assert (Htext : parseFloat text = numeral_value n).
  { unfold text. rewrite (parseFloat_leading_space ws _ Hws).
    apply parseFloat_numeral_rest; assumption. }
  split; [exact Htext |]. split.
  - intros get Hget. simpl. rewrite Hget. exact Htext.
  - intros row Hrow. simpl. unfold Csv.prop at 1. rewrite Hrow. simpl.
    unfold js_or at 2.
    rewrite (parseFloat_number_nonempty text _ Htext).
    unfold js_or. rewrite (parseFloat_number_nonempty text _ Htext).
    exact Htext.
Qed.

Lemma coordinate_read_from_prefix_witness :
  parseFloat " 10N" = Fin (10 # 1)
  /\ ThemePark.latitude (Csv.toPark {["latitude" := " 10N"]}) = Fin (10 # 1).
Proof.
  destruct (coordinate_read_from_prefix numeral_10 " " "N")
    as (Htext & _ & Hrow);
    [discriminate | reflexivity | repeat split |].
  split; [exact Htext |].
  apply (Hrow {["latitude" := " 10N"]}). reflexivity.
Defined.

(** X16: a point written longitude first is drawn latitude first.  When
    the static list holds one item whose text is ["POINT (x y)"] for
    numerals [x] and [y], and the theme-park layer is shown, the layer holds
    one marker, at the position (value of [y], value of [x]). *)
Theorem wkt_point_marker_position
    (st : App.State) (item : StaticList.Item) (x y : numeral) :
  App.reachable st ->
  App.showThemeParks st = true ->
  numeral_ok x -> numeral_ok y ->
  StaticList.wkt item = wkt_point (numeral_text x) (numeral_text y) ->
  map App.latlng
    (App.themeParkLayer (App.step (App.ThemeParksLoaded [item]) st))
  = [(numeral_value y, numeral_value x)].
Proof.
  intros Hreach Hshow Hx Hy Hwkt.
  destruct (reachable_in_sync st Hreach) as (Hmap & _ & _).
  assert (Hcoords :
    StaticList.parseWKT (StaticList.wkt item)
    = Some {| StaticList.longitude := numeral_value x;
              StaticList.latitude := numeral_value y |}).
  { rewrite Hwkt, (parseWKT_two_tokens _ _ (numeral_token x) (numeral_token y)).
    rewrite (parseFloat_numeral x Hx), (parseFloat_numeral y Hy). reflexivity. }
  simpl. unfold App.updateThemeParkMarkers, App.loadThemeParks. simpl.
  rewrite Hmap, Hshow. simpl.
  rewrite (static_keeps item _ Hcoords). reflexivity.
Qed.

Lemma wkt_point_marker_position_witness :
  map App.latlng
    (App.themeParkLayer
       (App.step (App.ThemeParksLoaded [nameless_item]) sample_state))
  = [(Fin (20 # 1), Fin (10 # 1))].
Proof.
  apply (wkt_point_marker_position sample_state nameless_item
           numeral_10 numeral_20);
    [do 2 constructor | reflexivity | discriminate | discriminate
    | reflexivity].
Defined.

Lemma static_parks_names_in_order_witness :
  map ThemePark.name (StaticList.parks [unmatched_item; nameless_item])
  = [VStr ""]
  /\ ThemePark.country
       {| ThemePark.name := VStr "";
          ThemePark.latitude := Fin (20 # 1);
          ThemePark.longitude := Fin (10 # 1);
          ThemePark.country := VStr "International";
          ThemePark.state := VUndefined |}
     = VStr "International".
Proof.
  destruct (static_parks_names_in_order [unmatched_item; nameless_item])
    as [Hnames Hparks].
  split; [exact Hnames |].
  apply Hparks. left. reflexivity.
Defined.

Lemma split_space_join_witness :
  join_space (StaticList.split_space "10  20") = "10  20"
  /\ all_chars not_space "10" = true
  /\ length (StaticList.split_space "10  20") = 3%nat.
Proof.
  destruct (split_space_join "10  20") as (Hjoin & Hpiece & Hlen).
  split; [exact Hjoin |]. split; [| exact Hlen].
  apply Hpiece. left. reflexivity.
Defined.

(** X17: the popup of a theme park from a CSV row shows as its state the
    first non-empty of the columns [state] and [State], and no state when
    there is none; the popup of a theme park from the static list never
    shows a state.  The marker stands at (latitude, longitude) of its
    record. *)
Theorem themePark_popup_state :
  (forall row : gmap string string,
     App.popup (App.themeParkMarker (Csv.toPark row))
     = App.ThemeParkPopup
         (ThemePark.name (Csv.toPark row))
         (VStr <$> first_filled row ["state"; "State"])
         (ThemePark.country (Csv.toPark row))
     /\ App.latlng (App.themeParkMarker (Csv.toPark row))
        = (ThemePark.latitude (Csv.toPark row),
           ThemePark.longitude (Csv.toPark row)))
  /\ (forall themeParkData park,
        In park (StaticList.parks themeParkData) ->
        exists name country,
          App.popup (App.themeParkMarker park)
          = App.ThemeParkPopup name None country).
Proof.
  split.
  - intros row. split; [| reflexivity].
    unfold App.themeParkMarker. cbn [App.popup]. f_equal.
    simpl. unfold Csv.prop.
    destruct (row !! "state") as [[| ? ?] |];
      destruct (row !! "State") as [[| ? ?] |]; reflexivity.
  - intros themeParkData park Hin.
    induction themeParkData as [| item data IH]; [destruct Hin |].
    rewrite static_parks_cons in Hin.
    unfold StaticList.toPark in Hin.
    destruct (StaticList.parseWKT (StaticList.wkt item)) as [coords |].
    + destruct Hin as [<- | Hin]; [| exact (IH Hin)].
      eexists _, _. reflexivity.
    + exact (IH Hin).
Qed.

Lemma themePark_popup_state_witness :
  exists name country,
    App.popup
      (App.themeParkMarker
         {| ThemePark.name := VStr "";
            ThemePark.latitude := Fin (20 # 1);
            ThemePark.longitude := Fin (10 # 1);
            ThemePark.country := VStr "International";
            ThemePark.state := VUndefined |})
    = App.ThemeParkPopup name None country.
Proof.
  apply (proj2 themePark_popup_state [nameless_item]). left. reflexivity.
Defined.
